(** * Nakamoto coefficient with statistical confidence: a shallow embedding

    This development embeds [main.py] of nc-statistical-confidence:
    the sliding-window aggregator [granularity], the point estimate
    [compute_nakamoto_coefficient], the confidence range search
    [find_nc_range] and the pass-rate [binom_p].

    Conventions of the embedding.
    - Python integers and the integer cells of a pandas frame are [Z].
      The frames of counts that the functions receive hold integers
      ([BlocksFrame]); a frame that [pd.DataFrame] builds from rows of
      unequal length holds missing values and floats ([Frame]).
    - Python floats are IEEE 754 binary64 numbers: the running share
      [power_ratio] of [compute_nakamoto_coefficient] and the pass-rate
      of [binom_p] are computed with the operations of the Standard
      Library's [SpecFloat] at precision 53.
    - The sums that pandas computes on an int64 frame are modelled
      without wrap-around; the statements that depend on it assume
      counts whose sums stay below 2^63 ([int64_counts]).
    - [scipy.stats.binomtest] is an external library: its p-value is a
      parameter [pvalue] of the development (a binary64 p-value is a
      rational, so it lives in [Q]); its argument validation is modelled.
    - Exceptions and unbounded [while] loops are explicit: a computation
      yields [Done v], [Raise e], or [OutOfFuel] when the loop budget it
      was given does not suffice. *)

From Stdlib Require Import ZArith QArith Floats.SpecFloat.
From stdpp Require Import base list sorting strings.

#[local] Open Scope Z_scope.

(** ** Outcomes: values, exceptions, loop budget *)

Inductive exn : Type :=
| ValueError
| KeyError
| IndexError
| ZeroDivisionError.

Inductive outcome (A : Type) : Type :=
| Done (a : A)
| Raise (e : exn)
| OutOfFuel.

Arguments Done {A} a.
Arguments Raise {A} e.
Arguments OutOfFuel {A}.

#[global] Instance outcome_ret : MRet outcome := fun A a => Done a.
#[global] Instance outcome_bind : MBind outcome := fun A B k m =>
  match m with
  | Done a => k a
  | Raise e => Raise e
  | OutOfFuel => OutOfFuel
  end.

Definition or_raise {A} (e : exn) (o : option A) : outcome A :=
  match o with
  | Some a => Done a
  | None => Raise e
  end.

(** ** Frames *)

Definition date : Type := Z.

(** A frame of block counts: the entity labels of the columns and, in
    index order, each date with its row of counts. *)
Record BlocksFrame : Type := mkBlocksFrame {
  bf_columns : list string;
  bf_rows : list (date * list Z)
}.

Definition bf_index (df : BlocksFrame) : list date := (bf_rows df).*1.
Definition bf_data (df : BlocksFrame) : list (list Z) := (bf_rows df).*2.

(** [s.loc[d]] where the label [d] stands once in the index: the entry
    labelled [d].  Where [d] stands several times pandas selects all
    its entries; [loc] then gives the first of them, and [repeated]
    tells that case apart. *)
Fixpoint loc {A} (s : list (date * A)) (d : date) : option A :=
  match s with
  | [] => None
  | (d', a) :: s' => if decide (d' = d) then Some a else loc s' d
  end.

(** The label [d] stands more than once in [index]. *)
Definition repeated (d : date) (index : list date) : bool :=
  bool_decide (1 < length (filter (fun d' => d' = d) index))%nat.

(** [s.iloc[i]]: the entry at position [i]. *)
Definition iloc {A} (s : list (date * A)) (i : nat) : option A :=
  snd <$> s !! i.

(** [sum(row)] *)
Definition sum (row : list Z) : Z := foldr Z.add 0 row.

(** ** Sorting in descending order *)

Definition desc (x y : Z) : Prop := y <= x.

#[global] Instance desc_dec x y : Decision (desc x y) := decide (y <= x).

(** [row.sort_values(ascending=False)], on the values. *)
Definition sort_values (row : list Z) : list Z := merge_sort desc row.

(** [sorted.nlargest(c).sum()]: [nlargest] returns nothing for [c <= 0]
    and everything for [c] beyond the length.  The sum is that of the
    integers, as is [sum] for the totals that pandas computes: on int64
    cells pandas wraps around at 2^63, which [int64_counts] excludes. *)
Definition nlargest_sum (row : list Z) (c : Z) : Z :=
  sum (take (Z.to_nat c) (sort_values row)).

(** ** Binary64 arithmetic *)

Definition prec : Z := 53.
Definition emax : Z := 1024.

Definition float_add : spec_float -> spec_float -> spec_float := SFadd prec emax.

(** An integer as an unrounded operand of a division. *)
Definition int_operand (z : Z) : spec_float :=
  match z with
  | Z0 => S754_zero false
  | Zpos m => S754_finite false m 0
  | Zneg m => S754_finite true m 0
  end.

(** [a / b] on Python integers, [b] nonzero: the binary64 number nearest
    to the quotient. *)
Definition int_true_div (a b : Z) : spec_float :=
  SFdiv prec emax (int_operand a) (int_operand b).

(** The literal [0.5]. *)
Definition float_half : spec_float := S754_finite false 4503599627370496 (-53).

Definition float_mul : spec_float -> spec_float -> spec_float := SFmul prec emax.

(** The integer [100] as a factor of a float: [100.0]. *)
Definition float_100 : spec_float := S754_finite false 7036874417766400 (-46).

(** An integer as a binary64 number: the nearest one. *)
Definition float_of_int (z : Z) : spec_float := binary_normalize prec emax z 0 false.

(** The rational that a finite binary64 number denotes. *)
Definition SF2Q (x : spec_float) : Q :=
  match x with
  | S754_finite s m e =>
      let v := if 0 <=? e then inject_Z (Zpos m * 2 ^ e)
               else Zpos m # Z.to_pos (2 ^ (- e)) in
      if s then (- v)%Q else v
  | _ => 0%Q
  end.

Definition SFfinite (x : spec_float) : bool :=
  match x with
  | S754_zero _ | S754_finite _ _ _ => true
  | _ => false
  end.

(** A float between 0 and [M * 2 ^ k]. *)
Definition float_within (M k : Z) (x : spec_float) : Prop :=
  x = S754_zero false \/
  exists m e, x = S754_finite false m e /\ e <= k /\ Zpos m <= M * 2 ^ (k - e).

(** ** Coefficient estimator *)

(** The [for] loop of [compute_nakamoto_coefficient] over the sorted counts. *)
Fixpoint nc_loop (total_blocks : Z) (blocks : list Z) (nc : Z)
    (power_ratio : spec_float) : Z :=
  match blocks with
  | [] => nc
  | b :: rest =>
      let nc := nc + 1 in
      let power_ratio :=
        float_add power_ratio (int_true_div b total_blocks) in
      if SFltb float_half power_ratio then nc
      else nc_loop total_blocks rest nc power_ratio
  end.

Definition compute_nakamoto_coefficient (row : list Z) : Z :=
  let total_blocks := sum row in
  if decide (0 < total_blocks)
  then nc_loop total_blocks (sort_values row) 0 (S754_zero false)
  else 0.

(** One coefficient per date, under the index of the frame. *)
Definition compute_nakamoto_coefficients (blocks_df : BlocksFrame) : list (date * Z) :=
  prod_map id compute_nakamoto_coefficient <$> bf_rows blocks_df.

(** The same loop with the running share kept as an exact rational:
    what the estimator computes when no quotient or sum is rounded. *)
Fixpoint nc_loop_exact (total_blocks : Z) (blocks : list Z) (nc : Z)
    (power_ratio : Q) : Z :=
  match blocks with
  | [] => nc
  | b :: rest =>
      let nc := nc + 1 in
      let power_ratio := (power_ratio + inject_Z b / inject_Z total_blocks)%Q in
      if negb (Qle_bool power_ratio (1 # 2)) then nc
      else nc_loop_exact total_blocks rest nc power_ratio
  end.

Definition nakamoto_exact (row : list Z) : Z :=
  let total_blocks := sum row in
  if decide (0 < total_blocks)
  then nc_loop_exact total_blocks (sort_values row) 0 0%Q
  else 0.

(** ** Binomial test *)

Inductive alternative : Type := Greater | Less.

Definition Qgt_bool (x y : Q) : bool := negb (Qle_bool x y).
Definition Qlt_bool (x y : Q) : bool := negb (Qle_bool y x).

Section Statistics.

(** [pvalue alt k n] is [binomtest(k, n, p=0.5, alternative=alt).pvalue]
    for arguments that [binomtest] accepts. *)
Variable pvalue : alternative -> Z -> Z -> Q.

(** [binomtest] rejects [k < 0], [n < 1] and [k > n] with a [ValueError]. *)
Definition binomtest (k n : Z) (alt : alternative) : outcome Q :=
  if decide (k < 0 \/ n < 1 \/ n < k) then Raise ValueError
  else Done (pvalue alt k n).

Variable alpha : Q.

(** *** Confidence range search *)

(** [while p > alpha:  # upper].  The state is [(coeffp, successes, p)];
    the loop leaves [coeffp] and [successes] behind. *)
Fixpoint upper_while (fuel : nat) (row : list Z) (total_blocks coeffp successes : Z)
    (p : Q) : outcome (Z * Z) :=
  if Qgt_bool p alpha then
    match fuel with
    | O => OutOfFuel
    | S fuel' =>
        let coeffp := coeffp + 1 in
        let successes := nlargest_sum row coeffp in
        p ← binomtest successes total_blocks Greater;
        upper_while fuel' row total_blocks coeffp successes p
    end
  else Done (coeffp, successes).

(** [while q > alpha:  # lower] *)
Fixpoint lower_while (fuel : nat) (row : list Z) (total_blocks coeffq : Z)
    (q : Q) : outcome Z :=
  if Qgt_bool q alpha then
    match fuel with
    | O => OutOfFuel
    | S fuel' =>
        let coeffq := coeffq - 1 in
        let successes := nlargest_sum row coeffq in
        q ← binomtest successes total_blocks Less;
        lower_while fuel' row total_blocks coeffq q
    end
  else Done coeffq.

(** The upper half of the body of [find_nc_range], from the first
    [nlargest] to [coeffp -= 1]: it yields [coeffp] and the value the
    variable [successes] holds afterwards. *)
Definition upper_search (fuel : nat) (row : list Z) (total_blocks coeff : Z)
    : outcome (Z * Z) :=
  let successes := nlargest_sum row coeff in
  p ← binomtest successes total_blocks Greater;
  if Qgt_bool p alpha then
    '(coeffp, successes) ← upper_while fuel row total_blocks coeff successes p;
    Done (coeffp - 1, successes)
  else Done (coeff, successes).

(** The lower half, from the first ['less'] test to [coeffq += 1]; it
    reads the variable [successes] as the upper half left it. *)
Definition lower_search (fuel : nat) (row : list Z) (total_blocks coeff successes : Z)
    : outcome Z :=
  q ← binomtest successes total_blocks Less;
  if Qgt_bool q alpha then
    coeffq ← lower_while fuel row total_blocks coeff q;
    Done (coeffq + 1)
  else Done coeff.

(** The body of the [for date in blocks_df.index] loop: [(lower, upper)]. *)
Definition nc_range_of_row (fuel : nat) (row : list Z) (coeff : Z) : outcome (Z * Z) :=
  let total_blocks := sum row in
  if decide (0 < total_blocks) then
    '(coeffp, successes) ← upper_search fuel row total_blocks coeff;
    coeffq ← lower_search fuel row total_blocks coeff successes;
    Done (coeffq, coeffp)
  else Done (coeff, coeff).

(** [for date in blocks_df.index].  For a date that stands several times
    in the index, [blocks_df.loc[date]] is a frame and [total_blocks] a
    series, whose test [if total_blocks > 0] raises [ValueError].  The
    coefficient frame is read at the first row of the date. *)
Fixpoint find_nc_range_loop (fuel : nat) (blocks : list (date * list Z))
    (nc : list (date * Z)) (dates : list date) : outcome (list (Z * Z)) :=
  match dates with
  | [] => Done []
  | d :: dates' =>
      row ← or_raise KeyError (loc blocks d);
      coeff ← or_raise KeyError (loc nc d);
      if repeated d blocks.*1 then Raise ValueError else
      range ← nc_range_of_row fuel row coeff;
      ranges ← find_nc_range_loop fuel blocks nc dates';
      Done (range :: ranges)
  end.

(** [find_nc_range]: per date of [blocks_df], the pair [(lower, upper)].
    Every [while] loop may run [fuel] times. *)
Definition find_nc_range (fuel : nat) (blocks_df : BlocksFrame) (nc_df : list (date * Z))
    : outcome (list (date * (Z * Z))) :=
  ranges ← find_nc_range_loop fuel (bf_rows blocks_df) nc_df (bf_index blocks_df);
  Done (zip (bf_index blocks_df) ranges).

(** *** Pass-rate evaluator *)

(** [for i in range(len(blocks_df.index))], with the counters
    [passes] and [total]. *)
Fixpoint binom_p_loop (blocks : list (date * list Z)) (nc : list (date * Z))
    (range : list nat) (passes total : Z) : outcome (Z * Z) :=
  match range with
  | [] => Done (passes, total)
  | i :: range' =>
      row ← or_raise IndexError (iloc blocks i);
      let num := sum row in
      if decide (num <> 0) then
        coeff ← or_raise IndexError (iloc nc i);
        let successes := nlargest_sum row coeff in
        p ← binomtest successes num Greater;
        let total := total + 1 in
        let passes := if Qlt_bool p alpha then passes + 1 else passes in
        binom_p_loop blocks nc range' passes total
      else binom_p_loop blocks nc range' passes total
  end.

(** [binom_p].  The result [(passes/total)*100] is a float: the quotient
    of the two integers, rounded, times [100.0], rounded. *)
Definition binom_p (blocks_df : BlocksFrame) (nc_df : list (date * Z))
    : outcome spec_float :=
  '(passes, total) ←
    binom_p_loop (bf_rows blocks_df) nc_df (seq 0 (length (bf_index blocks_df))) 0 0;
  if decide (total = 0) then Raise ZeroDivisionError
  else Done (float_mul (int_true_div passes total) float_100).

End Statistics.

(** ** The exact binomial tail at [p = 0.5]

    The quantity that [binomtest] evaluates in binary64: with [n] fair
    trials, ['greater'] is the probability of at least [k] successes and
    ['less'] of at most [k].  It instantiates [pvalue] at concrete inputs. *)

Fixpoint pascal_row (n : nat) : list Z :=
  match n with
  | O => [1]
  | S n' => let r := pascal_row n' in zip_with Z.add (0 :: r) (r ++ [0])
  end.

Definition exact_pvalue (alt : alternative) (k n : Z) : Q :=
  let r := pascal_row (Z.to_nat n) in
  let tail :=
    match alt with
    | Greater => sum (drop (Z.to_nat k) r)
    | Less => sum (take (Z.to_nat (k + 1)) r)
    end in
  (inject_Z tail / inject_Z (2 ^ n))%Q.

(** The default significance level [alpha=0.05]: the binary64 number
    that the literal denotes. *)
Definition alpha_default : Q := 3602879701896397 # 72057594037927936.

(** ** Temporal aggregator *)

(** Resolution of one bound of a slice against a sequence of length
    [len]: a negative bound counts from the end, and the result is
    clamped to the sequence. *)
Definition slice_bound (len x : Z) : Z :=
  if decide (x < 0) then Z.max 0 (x + len) else Z.min x len.

(** [l[start:stop:]] *)
Definition py_slice {A} (l : list A) (start stop : Z) : list A :=
  let len := Z.of_nat (length l) in
  let lo := slice_bound len start in
  let hi := slice_bound len stop in
  take (Z.to_nat (hi - lo)) (drop (Z.to_nat lo) l).

(** [zip] of the unpacked [rows]: the columns of [rows], up to the
    shortest row; no column at all without rows. *)
Fixpoint zip_star (rows : list (list Z)) : list (list Z) :=
  match rows with
  | [] => []
  | r :: rows' =>
      match rows' with
      | [] => (fun x => [x]) <$> r
      | _ :: _ => zip_with cons r (zip_star rows')
      end
  end.

(** [blocks_df.T.to_dict('list')]: a dictionary from date to row; a date
    that occurs again overwrites the row and keeps its place. *)
Fixpoint dict_set {A} (d : list (date * A)) (k : date) (v : A) : list (date * A) :=
  match d with
  | [] => [(k, v)]
  | (k', v') :: d' => if decide (k' = k) then (k, v) :: d' else (k', v') :: dict_set d' k v
  end.

Definition to_dict {A} (rows : list (date * A)) : list (date * A) :=
  foldl (fun d kv => dict_set d kv.1 kv.2) [] rows.

(** [sorted(daily.items())]: the keys of a dictionary are distinct, so
    the order of the dates decides. *)
Definition by_date {A} (x y : date * A) : Prop := x.1 <= y.1.

#[global] Instance by_date_dec {A} (x y : date * A) : Decision (by_date x y) :=
  decide (x.1 <= y.1).

Definition sorted_items {A} (d : list (date * A)) : list (date * A) :=
  merge_sort by_date d.

(** A cell of a frame that [pd.DataFrame] builds: an integer in a
    column of integers, a binary64 number in a column of floats. *)
Inductive cell : Type :=
| CInt (z : Z)
| CFloat (f : spec_float).

(** The missing value. *)
Definition NaN : cell := CFloat S754_nan.

Record Frame : Type := mkFrame {
  fr_columns : list string;
  fr_rows : list (date * list cell)
}.

Definition fr_index (fr : Frame) : list date := (fr_rows fr).*1.
Definition fr_data (fr : Frame) : list (list cell) := (fr_rows fr).*2.

(** Some row of [data] has no value for column [j]. *)
Definition column_has_missing (data : list (list Z)) (j : nat) : bool :=
  existsb (fun row => bool_decide (length row <= j)%nat) data.

(** The row of the frame for the row [row] of [data]: a value that a
    short row lacks is [NaN], and a column with such a value is a
    column of floats. *)
Definition frame_row (data : list (list Z)) (width : nat) (row : list Z) : list cell :=
  (fun j : nat =>
     match row !! j with
     | Some z => if column_has_missing data j then CFloat (float_of_int z) else CInt z
     | None => NaN
     end) <$> seq 0 width.

(** [pd.DataFrame(data=..., index=..., columns=...)] on a list of rows
    of integers.  The longest row gives the number of columns of the
    data, which has to be the number of labels in [columns], as the
    number of rows has to be that of [index]: otherwise [ValueError].
    Without any row, every date of [index] gets a row of [NaN]. *)
Definition DataFrame (data : list (list Z)) (index : list date)
    (columns : list string) : outcome Frame :=
  match data with
  | [] =>
      Done {| fr_columns := columns;
              fr_rows := (fun d => (d, replicate (length columns) NaN)) <$> index |}
  | _ :: _ =>
      let width := max_list (length <$> data) in
      if decide (width = length columns /\ length data = length index)
      then Done {| fr_columns := columns;
                   fr_rows := zip index (frame_row data width <$> data) |}
      else Raise ValueError
  end.

(** The body of [granularity] up to the call of [pd.DataFrame]: the
    variables [indicies] and [result]. *)
Definition granularity_locals (blocks_df : BlocksFrame) (num : Z)
    : list date * list (list Z) :=
  let daily := to_dict (bf_rows blocks_df) in
  let items := sorted_items daily in
  let lister := items.*2 in
  let dates := items.*1 in
  let indicies := dates in
  let step := num `div` 2 in
  let result :=
    (fun i : nat =>
       sum <$> zip_star (py_slice lister (Z.of_nat i - step) (Z.of_nat i + (num - step))))
    <$> seq 0 (length lister) in
  (indicies, result).

Definition granularity (blocks_df : BlocksFrame) (num : Z) : outcome Frame :=
  let '(indicies, result) := granularity_locals blocks_df num in
  DataFrame result indicies (bf_columns blocks_df).

(** ** Definitions that follow the specification *)

(** Spec: the share accumulated over the [k] largest counts,
    [accumulated / total], strictly exceeds 0.5. *)
Definition majority_after (row : list Z) (k : Z) : Prop :=
  (1 # 2 < inject_Z (nlargest_sum row k) / inject_Z (sum row))%Q.

(** Spec: [k] is the number of entities at which the running share first
    exceeds 0.5. *)
Definition first_majority (row : list Z) (k : Z) : Prop :=
  majority_after row k /\ forall j, 0 <= j < k -> ~ majority_after row j.

(** Spec: the element-wise sum of some rows; without rows there is no
    element to sum. *)
Fixpoint elementwise_sum (rows : list (list Z)) : list Z :=
  match rows with
  | [] => []
  | r :: rows' =>
      match rows' with
      | [] => r
      | _ :: _ => zip_with Z.add r (elementwise_sum rows')
      end
  end.

(** Spec: of rows that stand at the positions [r], [r + 1], ... those
    whose position lies in the half-open range [lo, hi). *)
Fixpoint rows_from (data : list (list Z)) (r lo hi : Z) : list (list Z) :=
  match data with
  | [] => []
  | row :: data' =>
      if decide (lo <= r < hi) then row :: rows_from data' (r + 1) lo hi
      else rows_from data' (r + 1) lo hi
  end.

Definition rows_in_range (data : list (list Z)) (lo hi : Z) : list (list Z) :=
  rows_from data 0 lo hi.

(** Spec: where the range of date [i] starts; a negative [i - step]
    counts from the end of the sequence. *)
Definition window_start (len i step : Z) : Z :=
  if decide (i - step < 0) then len + (i - step) else i - step.

(** Spec: the rows of the range of date index [i] for the window [num]. *)
Definition window (df : BlocksFrame) (num : Z) (i : nat) : list (list Z) :=
  let step := num `div` 2 in
  rows_in_range (bf_data df)
    (window_start (Z.of_nat (length (bf_data df))) (Z.of_nat i) step)
    (Z.of_nat i + (num - step)).

(** Some date of the table has a range without any row. *)
Definition some_window_empty (df : BlocksFrame) (num : Z) : bool :=
  existsb (fun i => bool_decide (window df num i = [])) (seq 0 (length (bf_data df))).

(** An integer as a cell of a column of floats, or of integers. *)
Definition as_cell (floats : bool) (z : Z) : cell :=
  if floats then CFloat (float_of_int z) else CInt z.

(** The row of date index [i] in the aggregated frame: missing values
    for a range without any row, the sums of the range otherwise, as
    floats when the frame has a row of missing values. *)
Definition window_row (df : BlocksFrame) (num : Z) (i : nat) : list cell :=
  if decide (window df num i = []) then replicate (length (bf_columns df)) NaN
  else as_cell (some_window_empty df num) <$> elementwise_sum (window df num i).


(** Spec: the dates of a count table are strictly increasing, and no
    count is negative. *)
Definition increasing_dates (df : BlocksFrame) : Prop :=
  StronglySorted Z.lt (bf_index df).

Definition nonneg_counts (df : BlocksFrame) : Prop :=
  Forall (Forall (fun c => 0 <= c)) (bf_data df).

(** Every row has one count per entity column, as the rows of a pandas
    frame have. *)
Definition rectangular (df : BlocksFrame) : Prop :=
  Forall (fun row => length row = length (bf_columns df)) (bf_data df).

(** The counts of an int64 frame on which no sum wraps around: no count
    is negative, and all of them together stay below 2^63. *)
Definition int64_counts (df : BlocksFrame) : Prop :=
  nonneg_counts df /\ sum (sum <$> bf_data df) < 2 ^ 63.

(** The table with its dates in increasing order, as [granularity]
    reads it: a date that stands several times keeps its last row. *)
Definition sorted_table (df : BlocksFrame) : BlocksFrame :=
  {| bf_columns := bf_columns df; bf_rows := sorted_items (to_dict (bf_rows df)) |}.

(** A frame of counts as a frame of cells. *)
Definition frame_of (df : BlocksFrame) : Frame :=
  {| fr_columns := bf_columns df;
     fr_rows := (fun dr : date * list Z => (dr.1, CInt <$> dr.2)) <$> bf_rows df |}.

(** Spec: the [k] largest counts of a row, taken one after the other:
    each time the largest count that is left. *)
Fixpoint remove_one (x : Z) (l : list Z) : list Z :=
  match l with
  | [] => []
  | y :: l' => if decide (x = y) then l' else y :: remove_one x l'
  end.

Fixpoint top_counts (k : nat) (row : list Z) : list Z :=
  match k, row with
  | S k', x :: row' =>
      let largest := foldr Z.max x row' in
      largest :: top_counts k' (remove_one largest row)
  | _, _ => []
  end.

(** Spec: the sum of the top [k] entities' counts. *)
Definition top_sum (row : list Z) (k : Z) : Z := sum (top_counts (Z.to_nat k) row).

#[global] Instance Qlt_decision (x y : Q) : Decision (x < y)%Q :=
  decide (Qnum x * QDen y < Qnum y * QDen x).

(** Spec: the rows with a nonzero total, each with the coefficient that
    the coefficient frame holds at the position of its date. *)
Definition tested_rows (df : BlocksFrame) (nc_df : list (date * Z)) : list (list Z * Z) :=
  filter (fun rc => sum rc.1 <> 0) (zip (bf_data df) nc_df.*2).

(** Spec: a row passes with a coefficient when the p-value of the
    ['greater'] test, with the sum of the top coefficient counts as [k]
    and the total as [n], is strictly below [alpha]. *)
Definition passes_test (pvalue : alternative -> Z -> Z -> Q) (alpha : Q)
    (rc : list Z * Z) : Prop :=
  (pvalue Greater (top_sum rc.1 rc.2) (sum rc.1) < alpha)%Q.

#[global] Instance passes_test_dec pvalue alpha rc : Decision (passes_test pvalue alpha rc) :=
  Qlt_decision _ _.

Definition passed_rows (pvalue : alternative -> Z -> Z -> Q) (alpha : Q)
    (df : BlocksFrame) (nc_df : list (date * Z)) : list (list Z * Z) :=
  filter (passes_test pvalue alpha) (tested_rows df nc_df).

(** The dates with a nonzero total, and among them those that pass with
    their point estimate. *)
Definition nonzero_dates (df : BlocksFrame) : list (date * list Z) :=
  filter (fun dr => sum dr.2 <> 0) (bf_rows df).

Definition passing_dates (pvalue : alternative -> Z -> Z -> Q) (alpha : Q)
    (df : BlocksFrame) : list (date * list Z) :=
  filter (fun dr => passes_test pvalue alpha (dr.2, compute_nakamoto_coefficient dr.2))
    (nonzero_dates df).

(** Both extreme tests of a row are at or below [alpha]: the ['greater']
    test with every block a success, the ['less'] test with none. *)
Definition extremes_significant (pvalue : alternative -> Z -> Z -> Q) (alpha : Q)
    (row : list Z) : Prop :=
  (pvalue Greater (sum row) (sum row) <= alpha)%Q /\
  (pvalue Less 0%Z (sum row) <= alpha)%Q.

(** The frame without the dates that have no block. *)
Definition without_idle_dates (df : BlocksFrame) : BlocksFrame :=
  {| bf_columns := bf_columns df; bf_rows := nonzero_dates df |}.

(** ** Sample frames *)

Definition sample_df : BlocksFrame :=
  {| bf_columns := ["a"; "b"; "c"]%string;
     bf_rows := [(1, [3; 2; 1]); (2, [0; 0; 0]); (3, [9; 9; 1])] |}.

Definition single_block_df : BlocksFrame :=
  {| bf_columns := ["a"]%string; bf_rows := [(1, [1])] |}.

Definition idle_df : BlocksFrame :=
  {| bf_columns := ["a"; "b"]%string; bf_rows := [(1, [0; 0]); (2, [0; 0])] |}.

(** Three dates with blocks: the test of the first two passes at
    [alpha = 0.05], that of the third does not. *)
Definition thirds_df : BlocksFrame :=
  {| bf_columns := ["a"; "b"; "c"]%string;
     bf_rows := [(1, [9; 9; 1]); (2, [9; 9; 1]); (3, [3; 2; 1])] |}.

(** ** Sums and sorting *)

#[global] Instance desc_trans : Transitive desc.
Proof. unfold desc. intros x y z ??. lia. Qed.
#[global] Instance desc_antisymm : AntiSymm (=) desc.
Proof. unfold desc. intros x y ??. lia. Qed.
#[global] Instance desc_total : Total desc.
Proof. unfold desc. intros x y. lia. Qed.

Lemma sum_app l1 l2 : sum (l1 ++ l2) = sum l1 + sum l2.
Proof. unfold sum. induction l1 as [|x l1 IH]; simpl; lia. Qed.

Lemma sum_Permutation l1 l2 : l1 ≡ₚ l2 -> sum l1 = sum l2.
Proof. unfold sum. induction 1; simpl; lia. Qed.

Lemma sum_nonneg l : Forall (fun c => 0 <= c) l -> 0 <= sum l.
Proof. unfold sum. induction 1; simpl; lia. Qed.

Lemma sum_take_bounds l n :
  Forall (fun c => 0 <= c) l -> 0 <= sum (take n l) <= sum l.
Proof.
  intros Hl. rewrite <- (take_drop n l) at 3. rewrite sum_app.
  assert (0 <= sum (take n l)) by (by apply sum_nonneg, Forall_take).
  assert (0 <= sum (drop n l)) by (by apply sum_nonneg, Forall_drop). lia.
Qed.

Lemma sort_values_Permutation row : sort_values row ≡ₚ row.
Proof. apply merge_sort_Permutation. Qed.

Lemma sort_values_Sorted row : Sorted desc (sort_values row).
Proof. apply (Sorted_merge_sort desc). Qed.

Lemma sort_values_proper row row' : row ≡ₚ row' -> sort_values row = sort_values row'.
Proof.
  intros Hp. apply (Sorted_unique desc); auto using sort_values_Sorted.
  by rewrite !sort_values_Permutation.
Qed.

Lemma sum_sort_values row : sum (sort_values row) = sum row.
Proof. apply sum_Permutation, sort_values_Permutation. Qed.

Lemma sort_values_nonneg row :
  Forall (fun c => 0 <= c) row -> Forall (fun c => 0 <= c) (sort_values row).
Proof. intros H. by rewrite sort_values_Permutation. Qed.

Lemma nlargest_sum_bounds row c :
  Forall (fun c => 0 <= c) row -> 0 <= nlargest_sum row c <= sum row.
Proof.
  intros H. unfold nlargest_sum. rewrite <- (sum_sort_values row).
  apply sum_take_bounds, sort_values_nonneg, H.
Qed.

Lemma nlargest_sum_proper row row' c :
  row ≡ₚ row' -> nlargest_sum row c = nlargest_sum row' c.
Proof. intros H. unfold nlargest_sum. by rewrite (sort_values_proper _ _ H). Qed.

(** The counts taken largest first are the first counts in descending
    order: the selection of the specification and the sorting of the
    source agree. *)
Lemma remove_one_Permutation (x : Z) (l : list Z) : x ∈ l -> l ≡ₚ x :: remove_one x l.
Proof.
  induction l as [|y l IH]; simpl; [by intros ?%elem_of_nil|].
  intros Hx. case_decide as E; [by subst|].
  apply elem_of_cons in Hx as [->|Hx]; [done|].
  rewrite (IH Hx) at 1. apply perm_swap.
Qed.

Lemma largest_spec (x : Z) (l : list Z) :
  foldr Z.max x l ∈ x :: l /\ Forall (fun y => y <= foldr Z.max x l) (x :: l).
Proof.
  induction l as [|y l [IHin IHle]]; simpl.
  - split; [left|]. repeat constructor. lia.
  - apply Forall_cons in IHle as [Hx Hl]. split.
    + destruct (Z.max_spec y (foldr Z.max x l)) as [[_ ->]|[_ ->]].
      * apply elem_of_cons in IHin as [->|?]; [left|right; by right].
      * right; left.
    + repeat (apply Forall_cons; split); try lia.
      eapply Forall_impl; [exact Hl|]. intros z Hz. simpl in Hz. lia.
Qed.

Lemma sort_values_largest (m : Z) (row : list Z) :
  m ∈ row -> Forall (fun y => y <= m) row ->
  sort_values row = m :: sort_values (remove_one m row).
Proof.
  intros Hin Hle. pose proof (remove_one_Permutation m row Hin) as Hperm.
  apply (Sorted_unique desc).
  - apply sort_values_Sorted.
  - apply Sorted_cons; [apply sort_values_Sorted|].
    destruct (sort_values (remove_one m row)) as [|h t] eqn:E; constructor.
    assert (h ∈ row) as Hh.
    { rewrite Hperm. right. rewrite <- (sort_values_Permutation (remove_one m row)), E. left. }
    rewrite Forall_forall in Hle. by apply Hle.
  - by rewrite !sort_values_Permutation.
Qed.

Lemma top_counts_take (k : nat) (row : list Z) :
  top_counts k row = take k (sort_values row).
Proof.
  revert row. induction k as [|k IH]; intros row; [by destruct row|].
  destruct row as [|x row']; [done|].
  cbn [top_counts]. destruct (largest_spec x row') as [Hin Hle].
  by rewrite (sort_values_largest _ _ Hin Hle), IH.
Qed.

Lemma nlargest_sum_top_sum (row : list Z) (c : Z) : nlargest_sum row c = top_sum row c.
Proof. unfold nlargest_sum, top_sum. by rewrite top_counts_take. Qed.

(** ** Coefficient estimator: properties *)

Lemma nc_loop_lower total blocks nc pr : nc <= nc_loop total blocks nc pr.
Proof.
  revert nc pr. induction blocks as [|b rest IH]; intros nc pr; simpl; [lia|].
  destruct (SFltb _ _); [lia|].
  specialize (IH (nc + 1) (float_add pr (int_true_div b total))). lia.
Qed.

Lemma nc_loop_enters total b rest nc pr : nc + 1 <= nc_loop total (b :: rest) nc pr.
Proof.
  simpl. destruct (SFltb _ _); [lia|]. apply nc_loop_lower.
Qed.

Lemma nc_loop_upper total blocks nc pr :
  nc_loop total blocks nc pr <= nc + Z.of_nat (length blocks).
Proof.
  revert nc pr. induction blocks as [|b rest IH]; intros nc pr; simpl; [lia|].
  destruct (SFltb _ _); [lia|].
  specialize (IH (nc + 1) (float_add pr (int_true_div b total))). lia.
Qed.

(** C3: on a row of non-negative counts the coefficient is 0 exactly
    when the total of the row is 0. *)
Theorem nakamoto_zero_iff_total_zero (row : list Z) :
  Forall (fun c => 0 <= c) row ->
  compute_nakamoto_coefficient row = 0 <-> sum row = 0.
Proof.
  intros Hrow. pose proof (sum_nonneg row Hrow) as Hsum.
  unfold compute_nakamoto_coefficient. case_decide as Hpos; [|lia].
  split; [|lia]. intros Hnc. exfalso.
  destruct (sort_values row) as [|b rest] eqn:Hs.
  - pose proof (sum_sort_values row) as E. rewrite Hs in E. cbn in E. lia.
  - pose proof (nc_loop_enters (sum row) b rest 0 (S754_zero false)). lia.
Qed.

Lemma nakamoto_zero_iff_total_zero_witness :
  Forall (fun c => 0 <= c) [0; 0; 0] /\
  (compute_nakamoto_coefficient [0; 0; 0] = 0 <-> sum [0; 0; 0] = 0).
Proof.
  assert (H : Forall (fun c => 0 <= c) [0; 0; 0]) by (repeat constructor; lia).
  split; [exact H | apply (nakamoto_zero_iff_total_zero [0; 0; 0] H)].
Defined.

(** C10: the coefficient of a row is that of every permutation of the
    row; it depends on the multiset of counts only. *)
Theorem nakamoto_permutation_invariant (row row' : list Z) :
  row ≡ₚ row' ->
  compute_nakamoto_coefficient row' = compute_nakamoto_coefficient row.
Proof.
  intros Hp. unfold compute_nakamoto_coefficient.
  by rewrite (sum_Permutation _ _ Hp), (sort_values_proper _ _ Hp).
Qed.

Lemma nakamoto_permutation_invariant_witness :
  [1; 4; 4; 7] ≡ₚ [4; 7; 4; 1] /\
  compute_nakamoto_coefficient [4; 7; 4; 1] = compute_nakamoto_coefficient [1; 4; 4; 7].
Proof.
  assert (H : [1; 4; 4; 7] ≡ₚ [4; 7; 4; 1]);
    [|split; [exact H | apply (nakamoto_permutation_invariant _ _ H)]].
  change [1; 4; 4; 7] with ([1] ++ [4; 4; 7]).
  rewrite (Permutation_app_comm [1] [4; 4; 7]). simpl.
  change [4; 4; 7; 1] with ([4] ++ [4; 7; 1]).
  etrans; [apply Permutation_app_comm|]. simpl.
  do 2 constructor. apply perm_swap.
Defined.

(** The example of the specification: five entities with ten blocks each. *)
Lemma nakamoto_five_equal :
  compute_nakamoto_coefficient [10; 10; 10; 10; 10] = 3 /\
  first_majority [10; 10; 10; 10; 10] 3.
Proof.
  split; [by vm_compute|]. split; [by vm_compute|].
  intros j Hj. assert (j = 0 \/ j = 1 \/ j = 2) as [->|[->| ->]] by lia;
    by vm_compute.
Qed.

(** C2: on eighteen entities with one block each the estimator returns
    9, although the nine largest counts hold exactly one half of the
    total and the running share first exceeds 0.5 after 10 entities:
    the binary64 sum of nine quotients 1/18 lies above 0.5. *)
Theorem nakamoto_rounding_at_even_split :
  compute_nakamoto_coefficient (replicate 18 1) = 9 /\
  ~ majority_after (replicate 18 1) 9 /\
  first_majority (replicate 18 1) 10.
Proof.
  split; [by vm_compute|]. split; [by vm_compute|]. split; [by vm_compute|].
  intros j Hj.
  assert (j = 0 \/ j = 1 \/ j = 2 \/ j = 3 \/ j = 4 \/ j = 5 \/ j = 6 \/ j = 7 \/
          j = 8 \/ j = 9) as Hcases by lia.
  repeat (destruct Hcases as [->|Hcases]; [by vm_compute|]). subst j. by vm_compute.
Qed.

(** *** The estimator in exact arithmetic

    With the running share kept exact the loop finds the first majority
    on every row of positive total: the estimator departs from it by
    rounding alone. *)

Lemma inject_Z_pos_neq (t : Z) : 0 < t -> ~ (inject_Z t == 0)%Q.
Proof. intros Ht H. unfold Qeq in H. simpl in H. lia. Qed.

Lemma share_above_half (s t : Z) :
  0 < t -> (1 # 2 < inject_Z s / inject_Z t)%Q <-> t < 2 * s.
Proof.
  intros Ht. destruct t as [|t|t]; try lia.
  unfold Qlt, Qdiv, Qmult, Qinv, inject_Z. simpl. lia.
Qed.

Lemma share_step (pr : Q) (acc b t : Z) :
  0 < t -> (pr == inject_Z acc / inject_Z t)%Q ->
  (pr + inject_Z b / inject_Z t == inject_Z (acc + b) / inject_Z t)%Q.
Proof.
  intros Ht ->. rewrite inject_Z_plus. field. by apply inject_Z_pos_neq.
Qed.

Lemma exceeds_half_exact (pr : Q) (s t : Z) :
  0 < t -> (pr == inject_Z s / inject_Z t)%Q ->
  negb (Qle_bool pr (1 # 2)) = true <-> t < 2 * s.
Proof.
  intros Ht Hpr. rewrite <- (share_above_half s t Ht), <- Hpr.
  rewrite negb_true_iff, <- not_true_iff_false, Qle_bool_iff.
  split; [apply Qnot_le_lt|apply Qlt_not_le].
Qed.

Lemma majority_after_iff (row : list Z) (k : Z) :
  0 < sum row -> majority_after row k <-> sum row < 2 * nlargest_sum row k.
Proof. intros Ht. unfold majority_after. by apply share_above_half. Qed.

Lemma nc_loop_exact_first (total : Z) (sorted : list Z) :
  0 < total -> total < 2 * sum sorted ->
  forall rest done pr,
    sorted = done ++ rest ->
    (pr == inject_Z (sum done) / inject_Z total)%Q ->
    (forall j, (j <= length done)%nat -> 2 * sum (take j sorted) <= total) ->
    exists n : nat,
      nc_loop_exact total rest (Z.of_nat (length done)) pr = Z.of_nat n /\
      total < 2 * sum (take n sorted) /\
      forall j, (j < n)%nat -> 2 * sum (take j sorted) <= total.
Proof.
  intros Ht Hall rest. induction rest as [|b rest IH]; intros done pr Hs Hpr Hinv.
  - exfalso. rewrite app_nil_r in Hs. subst done.
    specialize (Hinv (length sorted)). rewrite take_ge in Hinv by lia. lia.
  - assert (take (S (length done)) sorted = done ++ [b]) as Htake.
    { subst sorted. rewrite take_app_ge by lia.
      by replace (S (length done) - length done)%nat with 1%nat by lia. }
    pose proof (share_step pr (sum done) b total Ht Hpr) as Hpr'.
    assert (sum done + b = sum (done ++ [b])) as Hsum
      by (rewrite sum_app; unfold sum; simpl; lia).
    rewrite Hsum in Hpr'. simpl nc_loop_exact.
    destruct (negb (Qle_bool _ _)) eqn:Hcmp.
    + exists (S (length done)). split; [lia|]. split.
      * rewrite Htake. by apply (exceeds_half_exact _ _ _ Ht Hpr').
      * intros j Hj. apply Hinv. lia.
    + destruct (IH (done ++ [b]) (pr + inject_Z b / inject_Z total)%Q) as (n & Hn & Hmaj & Hmin).
      * by rewrite <- app_assoc.
      * exact Hpr'.
      * intros j Hj. rewrite length_app in Hj. simpl in Hj.
        destruct (decide (j = S (length done))) as [->|]; [|apply Hinv; lia].
        rewrite Htake. apply Z.nlt_ge. intros Hlt.
        apply (exceeds_half_exact _ _ _ Ht Hpr') in Hlt. congruence.
      * exists n. split; [|done]. rewrite <- Hn. f_equal.
        rewrite length_app. simpl. lia.
Qed.

Lemma nakamoto_exact_first_majority (row : list Z) :
  0 < sum row -> first_majority row (nakamoto_exact row).
Proof.
  intros Ht. unfold nakamoto_exact. rewrite decide_True by done.
  destruct (nc_loop_exact_first (sum row) (sort_values row) Ht) with
    (rest := sort_values row) (done := @nil Z) (pr := 0%Q) as (n & Hn & Hmaj & Hmin).
  - rewrite sum_sort_values. lia.
  - done.
  - change (sum []) with 0. unfold Qdiv. by rewrite Qmult_0_l.
  - intros j Hj. simpl in Hj. replace j with 0%nat by lia. rewrite take_0.
    change (sum []) with 0. lia.
  - change (Z.of_nat (length (@nil Z))) with 0 in Hn. rewrite Hn. split.
    + apply majority_after_iff; [done|]. unfold nlargest_sum. by rewrite Nat2Z.id.
    + intros j Hj. rewrite majority_after_iff by done. unfold nlargest_sum.
      specialize (Hmin (Z.to_nat j)). lia.
Qed.

(** On the row of eighteen single blocks exact arithmetic gives 10. *)
Example nakamoto_exact_even_split : nakamoto_exact (replicate 18 1) = 10.
Proof. by vm_compute. Qed.

(** ** Confidence range search: properties *)

Section RangeProperties.

Variable pvalue : alternative -> Z -> Z -> Q.
Variable alpha : Q.

Lemma upper_while_grows fuel row total coeffp successes p c s :
  upper_while pvalue alpha fuel row total coeffp successes p = Done (c, s) ->
  coeffp <= c /\ (Qgt_bool p alpha = true -> coeffp + 1 <= c).
Proof.
  revert coeffp successes p.
  induction fuel as [|fuel IH]; intros coeffp successes p; simpl.
  - destruct (Qgt_bool p alpha); [done|]. intros [= <- <-]. split; [lia|done].
  - destruct (Qgt_bool p alpha); [|intros [= <- <-]; split; [lia|done]].
    destruct (binomtest pvalue _ total Greater) as [p'| |]; simpl; [|done..].
    intros H. apply IH in H as [H _]. split; [lia|]. intros _. lia.
Qed.

Lemma lower_while_shrinks fuel row total coeffq q c :
  lower_while pvalue alpha fuel row total coeffq q = Done c ->
  c <= coeffq /\ (Qgt_bool q alpha = true -> c <= coeffq - 1).
Proof.
  revert coeffq q.
  induction fuel as [|fuel IH]; intros coeffq q; simpl.
  - destruct (Qgt_bool q alpha); [done|]. intros [= <-]. split; [lia|done].
  - destruct (Qgt_bool q alpha); [|intros [= <-]; split; [lia|done]].
    destruct (binomtest pvalue _ total Less) as [q'| |]; simpl; [|done..].
    intros H. apply IH in H as [H _]. split; [lia|]. intros _. lia.
Qed.

Lemma upper_search_bound fuel row total coeff coeffp s :
  upper_search pvalue alpha fuel row total coeff = Done (coeffp, s) -> coeff <= coeffp.
Proof.
  unfold upper_search.
  destruct (binomtest pvalue _ total Greater) as [p| |]; simpl; [|done..].
  destruct (Qgt_bool p alpha) eqn:Hp; [|by intros [= <- <-]].
  destruct (upper_while _ _ _ _ _ _ _ _) as [[c s']| |] eqn:Hw; simpl; [|done..].
  intros [= <- <-]. apply upper_while_grows in Hw as [_ Hw]. specialize (Hw Hp). lia.
Qed.

Lemma lower_search_bound fuel row total coeff successes coeffq :
  lower_search pvalue alpha fuel row total coeff successes = Done coeffq -> coeffq <= coeff.
Proof.
  unfold lower_search.
  destruct (binomtest pvalue _ total Less) as [q| |]; simpl; [|done..].
  destruct (Qgt_bool q alpha) eqn:Hq; [|by intros [= <-]].
  destruct (lower_while _ _ _ _ _ _ _) as [c| |] eqn:Hw; simpl; [|done..].
  intros [= <-]. apply lower_while_shrinks in Hw as [_ Hw]. specialize (Hw Hq). lia.
Qed.

Lemma nc_range_of_row_bounds fuel row coeff lower upper :
  nc_range_of_row pvalue alpha fuel row coeff = Done (lower, upper) ->
  lower <= coeff <= upper.
Proof.
  unfold nc_range_of_row. case_decide; [|intros [= <- <-]; lia].
  destruct (upper_search _ _ _ _ _ _) as [[coeffp s]| |] eqn:Hu; simpl; [|done..].
  destruct (lower_search _ _ _ _ _ _ _) as [coeffq| |] eqn:Hl; simpl; [|done..].
  intros [= <- <-]. apply upper_search_bound in Hu. apply lower_search_bound in Hl. lia.
Qed.

Lemma find_nc_range_loop_bounds fuel blocks nc dates ranges :
  find_nc_range_loop pvalue alpha fuel blocks nc dates = Done ranges ->
  forall d, d ∈ dates ->
    exists lower upper coeff,
      loc (zip dates ranges) d = Some (lower, upper) /\
      loc nc d = Some coeff /\ lower <= coeff <= upper.
Proof.
  revert ranges. induction dates as [|d0 dates IH]; intros ranges; simpl.
  - intros _ d Hd. by apply elem_of_nil in Hd.
  - destruct (loc blocks d0) as [row|]; simpl; [|done].
    destruct (loc nc d0) as [coeff0|] eqn:Hnc; simpl; [|done].
    destruct (repeated d0 blocks.*1); [done|].
    destruct (nc_range_of_row _ _ _ _ _) as [[lo hi]| |] eqn:Hr; simpl; [|done..].
    destruct (find_nc_range_loop _ _ _ _ _ _) as [rs| |] eqn:Hrs; simpl; [|done..].
    intros [= <-] d Hd. simpl. case_decide as Heq.
    + subst d0. exists lo, hi, coeff0. split; [done|]. split; [done|].
      by apply nc_range_of_row_bounds in Hr.
    + apply elem_of_cons in Hd as [->|Hd]; [congruence|]. by apply (IH rs).
Qed.

(** C1: when the range search returns, every date of the table has a
    pair (lower, upper) and a coefficient from
    [compute_nakamoto_coefficients], with lower <= coefficient <= upper. *)
Theorem range_encloses_coefficient (fuel : nat) (blocks_df : BlocksFrame)
    (ranges : list (date * (Z * Z))) :
  find_nc_range pvalue alpha fuel blocks_df (compute_nakamoto_coefficients blocks_df)
    = Done ranges ->
  forall d, d ∈ bf_index blocks_df ->
    exists lower upper coefficient,
      loc ranges d = Some (lower, upper) /\
      loc (compute_nakamoto_coefficients blocks_df) d = Some coefficient /\
      lower <= coefficient <= upper.
Proof.
  unfold find_nc_range.
  destruct (find_nc_range_loop _ _ _ _ _ _) as [rs| |] eqn:Hrs; simpl; [|done..].
  intros [= <-] d Hd. by apply (find_nc_range_loop_bounds _ _ _ _ _ Hrs).
Qed.

(** The variable [successes] after the upper half: untouched when the
    first test already passes, recomputed for the last candidate
    otherwise. *)
Lemma upper_while_successes fuel row total coeffp successes p c s :
  upper_while pvalue alpha fuel row total coeffp successes p = Done (c, s) ->
  Qgt_bool p alpha = true -> s = nlargest_sum row c.
Proof.
  revert coeffp successes p.
  induction fuel as [|fuel IH]; intros coeffp successes p; simpl.
  - destruct (Qgt_bool p alpha); [done|]. by intros _ ?.
  - destruct (Qgt_bool p alpha); [|by intros _ ?].
    destruct (binomtest pvalue _ total Greater) as [p'| |]; simpl; [|done..].
    intros H _. destruct (Qgt_bool p' alpha) eqn:Hp'; [by eapply IH|].
    destruct fuel; simpl in H; rewrite Hp' in H; by injection H as <- <-.
Qed.

Lemma upper_search_first_test_passes fuel row total coeff p :
  binomtest pvalue (nlargest_sum row coeff) total Greater = Done p ->
  Qgt_bool p alpha = false ->
  upper_search pvalue alpha fuel row total coeff = Done (coeff, nlargest_sum row coeff).
Proof. intros Hb Hp. unfold upper_search. rewrite Hb. simpl. by rewrite Hp. Qed.

Lemma upper_search_iterated fuel row total coeff p coeffp s :
  binomtest pvalue (nlargest_sum row coeff) total Greater = Done p ->
  Qgt_bool p alpha = true ->
  upper_search pvalue alpha fuel row total coeff = Done (coeffp, s) ->
  s = nlargest_sum row (coeffp + 1).
Proof.
  intros Hb Hp. unfold upper_search. rewrite Hb. simpl. rewrite Hp.
  destruct (upper_while _ _ _ _ _ _ _ _) as [[c s']| |] eqn:Hw; simpl; [|done..].
  intros [= <- <-]. apply upper_while_successes in Hw; [|done].
  by replace (c - 1 + 1) with c by lia.
Qed.

Lemma nc_range_of_row_stages fuel row coeff coeffp s :
  0 < sum row ->
  upper_search pvalue alpha fuel row (sum row) coeff = Done (coeffp, s) ->
  nc_range_of_row pvalue alpha fuel row coeff =
    (coeffq ← lower_search pvalue alpha fuel row (sum row) coeff s; Done (coeffq, coeffp)).
Proof. intros Hpos Hu. unfold nc_range_of_row. case_decide; [|lia]. by rewrite Hu. Qed.

(** A threshold that no candidate reaches keeps the upper loop running. *)
Lemma upper_while_diverges row total coeffp successes p :
  (forall c, coeffp < c ->
     exists p', binomtest pvalue (nlargest_sum row c) total Greater = Done p' /\
                Qgt_bool p' alpha = true) ->
  Qgt_bool p alpha = true ->
  forall fuel, upper_while pvalue alpha fuel row total coeffp successes p = OutOfFuel.
Proof.
  intros Hall Hp fuel. revert coeffp successes p Hall Hp.
  induction fuel as [|fuel IH]; intros coeffp successes p Hall Hp; simpl; rewrite Hp; [done|].
  destruct (Hall (coeffp + 1)) as (p' & -> & Hp'); [lia|]. simpl.
  apply IH; [|done]. intros c Hc. apply Hall. lia.
Qed.

(** A larger loop budget does not change a result that was reached. *)
Lemma upper_while_budget fuel fuel' row total coeffp successes p :
  (fuel <= fuel')%nat ->
  upper_while pvalue alpha fuel row total coeffp successes p <> OutOfFuel ->
  upper_while pvalue alpha fuel' row total coeffp successes p =
  upper_while pvalue alpha fuel row total coeffp successes p.
Proof.
  revert fuel' coeffp successes p.
  induction fuel as [|fuel IH]; intros fuel' coeffp successes p Hle; simpl.
  - destruct (Qgt_bool p alpha) eqn:Hp; [done|]. intros _.
    destruct fuel'; simpl; by rewrite Hp.
  - destruct fuel' as [|fuel']; [lia|]. simpl.
    destruct (Qgt_bool p alpha); [|done].
    destruct (binomtest pvalue _ total Greater) as [p'| |]; simpl; [|done..].
    apply IH. lia.
Qed.

Lemma lower_while_budget fuel fuel' row total coeffq q :
  (fuel <= fuel')%nat ->
  lower_while pvalue alpha fuel row total coeffq q <> OutOfFuel ->
  lower_while pvalue alpha fuel' row total coeffq q =
  lower_while pvalue alpha fuel row total coeffq q.
Proof.
  revert fuel' coeffq q.
  induction fuel as [|fuel IH]; intros fuel' coeffq q Hle; simpl.
  - destruct (Qgt_bool q alpha) eqn:Hq; [done|]. intros _.
    destruct fuel'; simpl; by rewrite Hq.
  - destruct fuel' as [|fuel']; [lia|]. simpl.
    destruct (Qgt_bool q alpha); [|done].
    destruct (binomtest pvalue _ total Less) as [q'| |]; simpl; [|done..].
    apply IH. lia.
Qed.

Lemma upper_search_budget fuel fuel' row total coeff r :
  (fuel <= fuel')%nat ->
  upper_search pvalue alpha fuel row total coeff = Done r ->
  upper_search pvalue alpha fuel' row total coeff = Done r.
Proof.
  intros Hle. unfold upper_search.
  destruct (binomtest pvalue _ total Greater) as [p| |]; simpl; [|done..].
  destruct (Qgt_bool p alpha); [|done].
  destruct (upper_while pvalue alpha fuel _ _ _ _ _) as [[c s]| |] eqn:Hw; simpl; [|done..].
  intros Hr. rewrite (upper_while_budget fuel fuel') by (by rewrite ?Hw).
  by rewrite Hw.
Qed.

Lemma lower_search_budget fuel fuel' row total coeff successes r :
  (fuel <= fuel')%nat ->
  lower_search pvalue alpha fuel row total coeff successes = Done r ->
  lower_search pvalue alpha fuel' row total coeff successes = Done r.
Proof.
  intros Hle. unfold lower_search.
  destruct (binomtest pvalue _ total Less) as [q| |]; simpl; [|done..].
  destruct (Qgt_bool q alpha); [|done].
  destruct (lower_while pvalue alpha fuel _ _ _ _) as [c| |] eqn:Hw; simpl; [|done..].
  intros Hr. rewrite (lower_while_budget fuel fuel') by (by rewrite ?Hw).
  by rewrite Hw.
Qed.

Lemma nc_range_of_row_budget fuel fuel' row coeff range :
  (fuel <= fuel')%nat ->
  nc_range_of_row pvalue alpha fuel row coeff = Done range ->
  nc_range_of_row pvalue alpha fuel' row coeff = Done range.
Proof.
  intros Hle. unfold nc_range_of_row. case_decide; [|done].
  destruct (upper_search pvalue alpha fuel _ _ _) as [[coeffp s]| |] eqn:Hu; simpl; [|done..].
  destruct (lower_search pvalue alpha fuel _ _ _ _) as [coeffq| |] eqn:Hl; simpl; [|done..].
  intros Hr. rewrite (upper_search_budget _ _ _ _ _ _ Hle Hu). simpl.
  by rewrite (lower_search_budget _ _ _ _ _ _ _ Hle Hl).
Qed.

Lemma find_nc_range_budget fuel fuel' blocks_df nc_df ranges :
  (fuel <= fuel')%nat ->
  find_nc_range pvalue alpha fuel blocks_df nc_df = Done ranges ->
  find_nc_range pvalue alpha fuel' blocks_df nc_df = Done ranges.
Proof.
  intros Hle. unfold find_nc_range.
  assert (forall dates rs,
    find_nc_range_loop pvalue alpha fuel (bf_rows blocks_df) nc_df dates = Done rs ->
    find_nc_range_loop pvalue alpha fuel' (bf_rows blocks_df) nc_df dates = Done rs) as Hloop.
  { induction dates as [|d dates IH]; intros rs; simpl; [done|].
    destruct (loc (bf_rows blocks_df) d) as [row|]; simpl; [|done].
    destruct (loc nc_df d) as [coeff|]; simpl; [|done].
    destruct (repeated d (bf_rows blocks_df).*1); [done|].
    destruct (nc_range_of_row pvalue alpha fuel _ _) as [r| |] eqn:Hr; simpl; [|done..].
    destruct (find_nc_range_loop pvalue alpha fuel _ _ _) as [rs'| |]; simpl; [|done..].
    intros [= <-]. rewrite (nc_range_of_row_budget _ _ _ _ _ Hle Hr). simpl.
    by rewrite (IH rs'). }
  destruct (find_nc_range_loop pvalue alpha fuel _ _ _) as [rs| |] eqn:Hrs; simpl; [|done..].
  intros [= <-]. by rewrite (Hloop _ _ Hrs).
Qed.

(** *** When the search returns

    The loops stop when the test of all blocks (['greater'], every
    entity counted) and the test of no block (['less'], no entity
    counted) are at or below [alpha]: the candidates reach them after at
    most as many steps as there are entities, or as the coefficient
    counts. *)

Lemma nlargest_sum_all row c :
  Z.of_nat (length row) <= c -> nlargest_sum row c = sum row.
Proof.
  intros Hc. unfold nlargest_sum. rewrite take_ge; [apply sum_sort_values|].
  rewrite (Permutation_length (sort_values_Permutation row)). lia.
Qed.

Lemma nlargest_sum_none row c : c <= 0 -> nlargest_sum row c = 0.
Proof. intros Hc. unfold nlargest_sum. by replace (Z.to_nat c) with 0%nat by lia. Qed.

Lemma binomtest_accepts_any row c alt :
  Forall (fun c => 0 <= c) row -> 0 < sum row ->
  binomtest pvalue (nlargest_sum row c) (sum row) alt
    = Done (pvalue alt (nlargest_sum row c) (sum row)).
Proof.
  intros Hrow Hsum. unfold binomtest.
  pose proof (nlargest_sum_bounds row c Hrow). rewrite decide_False; [done|lia].
Qed.

Lemma upper_while_returns row (n : nat) coeffp successes p :
  Forall (fun c => 0 <= c) row -> 0 < sum row ->
  Qgt_bool (pvalue Greater (sum row) (sum row)) alpha = false ->
  Z.of_nat (length row) <= coeffp + Z.of_nat n ->
  exists r, upper_while pvalue alpha (S n) row (sum row) coeffp successes p = Done r.
Proof.
  intros Hrow Hsum Hall. revert coeffp successes p.
  induction n as [|n IH]; intros coeffp successes p Hn.
  - simpl. destruct (Qgt_bool p alpha); [|by eexists].
    rewrite binomtest_accepts_any by done. simpl.
    rewrite nlargest_sum_all by lia. rewrite Hall. by eexists.
  - change (upper_while pvalue alpha (S (S n)) row (sum row) coeffp successes p)
      with (if Qgt_bool p alpha
            then p' ← binomtest pvalue (nlargest_sum row (coeffp + 1)) (sum row) Greater;
                 upper_while pvalue alpha (S n) row (sum row) (coeffp + 1)
                   (nlargest_sum row (coeffp + 1)) p'
            else Done (coeffp, successes)).
    destruct (Qgt_bool p alpha); [|by eexists].
    rewrite binomtest_accepts_any by done. cbn [mbind outcome_bind].
    apply IH. lia.
Qed.

Lemma lower_while_returns row (n : nat) coeffq q :
  Forall (fun c => 0 <= c) row -> 0 < sum row ->
  Qgt_bool (pvalue Less 0 (sum row)) alpha = false ->
  coeffq <= Z.of_nat n ->
  exists r, lower_while pvalue alpha (S n) row (sum row) coeffq q = Done r.
Proof.
  intros Hrow Hsum Hnone. revert coeffq q.
  induction n as [|n IH]; intros coeffq q Hn.
  - simpl. destruct (Qgt_bool q alpha); [|by eexists].
    rewrite binomtest_accepts_any by done. simpl.
    rewrite nlargest_sum_none by lia. rewrite Hnone. by eexists.
  - change (lower_while pvalue alpha (S (S n)) row (sum row) coeffq q)
      with (if Qgt_bool q alpha
            then q' ← binomtest pvalue (nlargest_sum row (coeffq - 1)) (sum row) Less;
                 lower_while pvalue alpha (S n) row (sum row) (coeffq - 1) q'
            else Done coeffq).
    destruct (Qgt_bool q alpha); [|by eexists].
    rewrite binomtest_accepts_any by done. cbn [mbind outcome_bind].
    apply IH. lia.
Qed.

Lemma upper_search_successes fuel row total coeff coeffp s :
  upper_search pvalue alpha fuel row total coeff = Done (coeffp, s) ->
  exists c, s = nlargest_sum row c.
Proof.
  unfold upper_search.
  destruct (binomtest pvalue _ total Greater) as [p| |]; simpl; [|done..].
  destruct (Qgt_bool p alpha) eqn:Hp; [|intros [= <- <-]; by eexists].
  destruct (upper_while _ _ _ _ _ _ _ _) as [[c s']| |] eqn:Hw; simpl; [|done..].
  intros [= <- <-]. exists c. by apply (upper_while_successes _ _ _ _ _ _ _ _ Hw).
Qed.

Lemma upper_search_returns row (n : nat) coeff :
  Forall (fun c => 0 <= c) row -> 0 < sum row ->
  Qgt_bool (pvalue Greater (sum row) (sum row)) alpha = false ->
  Z.of_nat (length row) <= coeff + Z.of_nat n ->
  exists r, upper_search pvalue alpha (S n) row (sum row) coeff = Done r.
Proof.
  intros Hrow Hsum Hall Hn. unfold upper_search. cbv zeta.
  rewrite binomtest_accepts_any by done. cbn [mbind outcome_bind].
  destruct (Qgt_bool (pvalue Greater (nlargest_sum row coeff) (sum row)) alpha);
    [|by eexists].
  destruct (upper_while_returns row n coeff (nlargest_sum row coeff)
              (pvalue Greater (nlargest_sum row coeff) (sum row)) Hrow Hsum Hall Hn)
    as [[c s] ->].
  by eexists.
Qed.

Lemma lower_search_returns row (n : nat) coeff c :
  Forall (fun c => 0 <= c) row -> 0 < sum row ->
  Qgt_bool (pvalue Less 0 (sum row)) alpha = false ->
  coeff <= Z.of_nat n ->
  exists r,
    lower_search pvalue alpha (S n) row (sum row) coeff (nlargest_sum row c) = Done r.
Proof.
  intros Hrow Hsum Hnone Hn. unfold lower_search.
  rewrite binomtest_accepts_any by done. cbn [mbind outcome_bind].
  destruct (Qgt_bool (pvalue Less (nlargest_sum row c) (sum row)) alpha); [|by eexists].
  destruct (lower_while_returns row n coeff
              (pvalue Less (nlargest_sum row c) (sum row)) Hrow Hsum Hnone Hn) as [r ->].
  by eexists.
Qed.

(** On a row of non-negative counts with positive total the search of
    one date returns, within a budget of one more than the number of
    entities and the magnitude of the coefficient together, when both extreme tests are at or below
    [alpha]. *)
Lemma nc_range_of_row_returns row coeff :
  Forall (fun c => 0 <= c) row -> 0 < sum row ->
  Qgt_bool (pvalue Greater (sum row) (sum row)) alpha = false ->
  Qgt_bool (pvalue Less 0 (sum row)) alpha = false ->
  exists range,
    nc_range_of_row pvalue alpha (S (length row + Z.abs_nat coeff)) row coeff = Done range.
Proof.
  intros Hrow Hsum Hall Hnone. unfold nc_range_of_row. rewrite decide_True by done.
  destruct (upper_search_returns row (length row + Z.abs_nat coeff) coeff Hrow Hsum Hall)
    as [[coeffp s] Hu]; [lia|].
  rewrite Hu. cbn [mbind outcome_bind].
  destruct (upper_search_successes _ _ _ _ _ _ Hu) as [c ->].
  destruct (lower_search_returns row (length row + Z.abs_nat coeff) coeff c Hrow Hsum Hnone)
    as [coeffq ->]; [lia|].
  by eexists.
Qed.

End RangeProperties.

Lemma range_encloses_coefficient_witness :
  find_nc_range exact_pvalue alpha_default 8 sample_df
      (compute_nakamoto_coefficients sample_df)
    = Done [(1, (1, 2)); (2, (0, 0)); (3, (1, 2))] /\
  forall d, d ∈ bf_index sample_df ->
    exists lower upper coefficient,
      loc [(1, (1, 2)); (2, (0, 0)); (3, (1, 2))] d = Some (lower, upper) /\
      loc (compute_nakamoto_coefficients sample_df) d = Some coefficient /\
      lower <= coefficient <= upper.
Proof.
  assert (H : find_nc_range exact_pvalue alpha_default 8 sample_df
                (compute_nakamoto_coefficients sample_df)
              = Done [(1, (1, 2)); (2, (0, 0)); (3, (1, 2))]) by (by vm_compute).
  split; [exact H|].
  apply (range_encloses_coefficient exact_pvalue alpha_default 8 sample_df _ H).
Defined.

Lemma nlargest_sum_single_block c : 1 <= c -> nlargest_sum [1] c = 1.
Proof.
  intros Hc. unfold nlargest_sum. change (sort_values [1]) with [1].
  destruct (Z.to_nat c) eqn:E; [lia|]. by destruct n.
Qed.

(** C4: on a table with a single date and a single block the upper loop
    of [find_nc_range] never leaves: no loop budget yields a result.
    Every candidate has the p-value 1/2, above [alpha = 0.05]. *)
Theorem range_search_diverges_on_single_block (fuel : nat) :
  find_nc_range exact_pvalue alpha_default fuel single_block_df
    (compute_nakamoto_coefficients single_block_df) = OutOfFuel.
Proof.
  assert (Hrow : nc_range_of_row exact_pvalue alpha_default fuel [1] 1 = OutOfFuel).
  { unfold nc_range_of_row, upper_search. change (sum [1]) with 1.
    case_decide; [|lia]. rewrite nlargest_sum_single_block by lia.
    change (binomtest exact_pvalue 1 1 Greater) with (Done (1 # 2)).
    cbn [mbind outcome_bind]. change (Qgt_bool (1 # 2) alpha_default) with true.
    cbv iota. rewrite upper_while_diverges; [done| |done].
    intros c Hc. exists (1 # 2). by rewrite nlargest_sum_single_block by lia. }
  unfold find_nc_range.
  change (compute_nakamoto_coefficients single_block_df) with [(1, 1)].
  cbn [single_block_df bf_rows bf_index fmap list_fmap fst find_nc_range_loop loc].
  rewrite !decide_True by done. cbn [or_raise mbind outcome_bind].
  change (repeated 1 [1]) with false. cbv iota.
  by rewrite Hrow.
Qed.

(** The same happens on every date with one to four blocks: under the
    exact binomial tail no count of successes among at most four trials
    is significant at [alpha = 0.05]. *)
Lemma small_total_never_significant (k n : Z) :
  1 <= n <= 4 -> 0 <= k <= n ->
  Qgt_bool (exact_pvalue Greater k n) alpha_default = true.
Proof.
  intros Hn Hk.
  assert (n = 1 \/ n = 2 \/ n = 3 \/ n = 4) as [->|[->|[->| ->]]] by lia.
  - assert (k = 0 \/ k = 1) as [->| ->] by lia; by vm_compute.
  - assert (k = 0 \/ k = 1 \/ k = 2) as [->|[->| ->]] by lia; by vm_compute.
  - assert (k = 0 \/ k = 1 \/ k = 2 \/ k = 3) as [->|[->|[->| ->]]] by lia; by vm_compute.
  - assert (k = 0 \/ k = 1 \/ k = 2 \/ k = 3 \/ k = 4) as [->|[->|[->|[->| ->]]]] by lia;
      by vm_compute.
Qed.

Lemma nc_range_of_row_diverges_small_total (fuel : nat) (row : list Z) (coeff : Z) :
  Forall (fun c => 0 <= c) row -> 1 <= sum row <= 4 ->
  nc_range_of_row exact_pvalue alpha_default fuel row coeff = OutOfFuel.
Proof.
  intros Hrow Hsum. unfold nc_range_of_row, upper_search. rewrite decide_True by lia.
  cbv zeta. rewrite binomtest_accepts_any by (done || lia). cbn [mbind outcome_bind].
  pose proof (nlargest_sum_bounds row coeff Hrow) as Hk.
  rewrite small_total_never_significant by done.
  rewrite upper_while_diverges; [done| |by apply small_total_never_significant].
  intros c _. eexists. split; [by apply binomtest_accepts_any; [|lia]|].
  apply small_total_never_significant; [done|]. by apply nlargest_sum_bounds.
Qed.

(** C5: on the row [3; 2; 1] the point estimate is 2 and its successes
    are 5; the upper loop runs once and leaves [successes = 6], and the
    lower half of the search, whose first ['less'] test takes its [k]
    from that variable, runs with 6. *)
Theorem lower_search_starts_from_last_upper_candidate :
  compute_nakamoto_coefficient [3; 2; 1] = 2 /\
  nlargest_sum [3; 2; 1] 2 = 5 /\
  upper_search exact_pvalue alpha_default 8 [3; 2; 1] (sum [3; 2; 1]) 2 = Done (2, 6) /\
  nc_range_of_row exact_pvalue alpha_default 8 [3; 2; 1] 2 =
    (coeffq ← lower_search exact_pvalue alpha_default 8 [3; 2; 1] (sum [3; 2; 1]) 2 6;
     Done (coeffq, 2)).
Proof.
  assert (Hu : upper_search exact_pvalue alpha_default 8 [3; 2; 1] (sum [3; 2; 1]) 2
               = Done (2, 6)) by (by vm_compute).
  split; [by vm_compute|]. split; [by vm_compute|]. split; [exact Hu|].
  apply nc_range_of_row_stages; [by vm_compute|exact Hu].
Qed.

(** ** Pass-rate evaluator: properties *)

(** *** Rounding to binary64 stays below a bound on the grid *)

Lemma iter_pos_nat {A} (f : A -> A) (p : positive) (x : A) :
  SpecFloat.iter_pos f p x = Nat.iter (Pos.to_nat p) f x.
Proof.
  revert x. induction p as [p IH|p IH|]; intros x; cbn [SpecFloat.iter_pos].
  - rewrite !IH, Pos2Nat.inj_xI. rewrite <- Nat.iter_succ_r.
    replace (S (2 * Pos.to_nat p))%nat with (Pos.to_nat p + S (Pos.to_nat p))%nat by lia.
    by rewrite Nat.iter_add.
  - rewrite !IH, Pos2Nat.inj_xO.
    replace (2 * Pos.to_nat p)%nat with (Pos.to_nat p + Pos.to_nat p)%nat by lia.
    by rewrite Nat.iter_add.
  - done.
Qed.

Lemma shr_1_m (m : Z) (r s : bool) :
  0 <= m ->
  shr_m (shr_1 (Build_shr_record m r s)) = m / 2 /\
  shr_r (shr_1 (Build_shr_record m r s)) = Z.odd m /\
  shr_s (shr_1 (Build_shr_record m r s)) = orb r s.
Proof.
  intros Hm. destruct m as [|[p|p|]|p]; try lia; simpl; split_and?; try done.
  - apply (Z.div_unique _ 2 _ 1); lia.
  - apply (Z.div_unique _ 2 _ 0); lia.
Qed.

Lemma shr_iter (n : nat) (m : Z) (r s : bool) :
  0 <= m ->
  let mrs := Nat.iter n shr_1 (Build_shr_record m r s) in
  shr_m mrs = m / 2 ^ Z.of_nat n /\
  (m mod 2 ^ Z.of_nat n = 0 -> r = false -> s = false ->
   shr_r mrs = false /\ shr_s mrs = false).
Proof.
  intros Hm. induction n as [|n IH]; intros mrs.
  - subst mrs. simpl. rewrite Z.div_1_r. split; [done|]. by intros _ -> ->.
  - subst mrs. rewrite Nat.iter_succ.
    destruct (Nat.iter n shr_1 _) as [m' r' s'] eqn:E. simpl in IH.
    destruct IH as [IHm IHf].
    assert (0 <= m') as Hm' by (subst m'; apply Z.div_pos; lia).
    destruct (shr_1_m m' r' s' Hm') as (-> & -> & ->).
    rewrite Nat2Z.inj_succ, Z.pow_succ_r by lia.
    split.
    + subst m'. rewrite Z.div_div by lia. f_equal. lia.
    + intros Hmod Hr Hs.
      assert (m mod 2 ^ Z.of_nat n = 0) as Hmod'.
      { apply Z.mod_divide in Hmod; [|lia]. apply Z.mod_divide; [lia|].
        destruct Hmod as [c Hc]. exists (c * 2). lia. }
      destruct (IHf Hmod' Hr Hs) as [-> ->]. split; [|done].
      subst m'. apply Z.mod_divide in Hmod; [|lia]. destruct Hmod as [c Hc].
      rewrite Hc. replace (c * (2 * 2 ^ Z.of_nat n)) with (c * 2 * 2 ^ Z.of_nat n) by lia.
      rewrite Z.div_mul by lia. rewrite Z.odd_mul. simpl. apply andb_false_r.
Qed.

Lemma digits2_pos_bounds (p : positive) :
  2 ^ (Zpos (digits2_pos p) - 1) <= Zpos p < 2 ^ Zpos (digits2_pos p).
Proof.
  induction p as [p IH|p IH|]; simpl digits2_pos; [| |by compute].
  - rewrite Pos2Z.inj_succ, Z.pow_succ_r by lia.
    replace (Z.succ (Z.pos (digits2_pos p)) - 1) with (Z.succ (Z.pos (digits2_pos p) - 1)) by lia.
    rewrite Z.pow_succ_r by lia. lia.
  - rewrite Pos2Z.inj_succ, Z.pow_succ_r by lia.
    replace (Z.succ (Z.pos (digits2_pos p)) - 1) with (Z.succ (Z.pos (digits2_pos p) - 1)) by lia.
    rewrite Z.pow_succ_r by lia. lia.
Qed.

Lemma Zdigits2_nonneg (m : Z) : 0 <= Zdigits2 m.
Proof. destruct m; simpl; lia. Qed.

Lemma Zdigits2_le (m d : Z) : 0 <= m -> 0 <= d -> m < 2 ^ d -> Zdigits2 m <= d.
Proof.
  intros Hm Hd Hlt. destruct m as [|p|p]; simpl; [lia| |lia].
  pose proof (digits2_pos_bounds p) as [Hlo _].
  destruct (decide (Zpos (digits2_pos p) <= d)) as [|Hgt]; [done|]. exfalso.
  assert (2 ^ d <= 2 ^ (Zpos (digits2_pos p) - 1)) by (apply Z.pow_le_mono_r; lia).
  lia.
Qed.

Lemma Zdigits2_lt_pow (m : Z) : 0 <= m -> m < 2 ^ Zdigits2 m.
Proof.
  intros Hm. destruct m as [|p|p]; simpl; [lia| |lia]. apply digits2_pos_bounds.
Qed.

Lemma fexp_mono (e1 e2 : Z) : e1 <= e2 -> fexp prec emax e1 <= fexp prec emax e2.
Proof. unfold fexp. lia. Qed.

Lemma shr_record_of_loc_m m l : shr_m (shr_record_of_loc m l) = m.
Proof. by destruct l as [|[]]. Qed.

Lemma loc_of_shr_record_of_loc m l : loc_of_shr_record (shr_record_of_loc m l) = l.
Proof. by destruct l as [|[]]. Qed.

Lemma round_nearest_even_bounds m l :
  m <= round_nearest_even m l <= m + 1.
Proof. destruct l as [|[]]; simpl; try destruct (Z.even m); lia. Qed.

Lemma shr_spec (m e n : Z) (l : location) (mrs : shr_record) (e2 : Z) :
  0 <= m ->
  shr (shr_record_of_loc m l) e n = (mrs, e2) ->
  (n <= 0 /\ e2 = e /\ shr_m mrs = m /\ loc_of_shr_record mrs = l) \/
  (0 < n /\ e2 = e + n /\ shr_m mrs = m / 2 ^ n /\
   (m mod 2 ^ n = 0 -> l = loc_Exact -> loc_of_shr_record mrs = loc_Exact)).
Proof.
  intros Hm. unfold shr. destruct n as [|p|p].
  - intros [= <- <-]. left. by rewrite shr_record_of_loc_m, loc_of_shr_record_of_loc.
  - intros [= <- <-]. right. rewrite iter_pos_nat.
    split; [lia|]. split; [done|].
    assert (exists r s, shr_record_of_loc m l = Build_shr_record m r s /\
                        (l = loc_Exact -> r = false /\ s = false)) as (r & s & -> & Hl).
    { destruct l as [|[]]; simpl; eexists _, _; (split; [done|]); done. }
    destruct (shr_iter (Pos.to_nat p) m r s Hm) as [Hmm Hfl].
    rewrite positive_nat_Z in Hmm, Hfl. split; [done|].
    intros Hmod Hex. destruct (Hl Hex) as [-> ->].
    destruct (Hfl Hmod eq_refl eq_refl) as [Hr Hs].
    destruct (Nat.iter _ _ _) as [m' r' s']. simpl in *. by subst.
  - intros [= <- <-]. left. rewrite shr_record_of_loc_m, loc_of_shr_record_of_loc.
    split; [lia|done].
Qed.

Lemma pow2_split (a b : Z) : 0 <= a -> 0 <= b -> 2 ^ (a + b) = 2 ^ a * 2 ^ b.
Proof. intros. by apply Z.pow_add_r. Qed.

(** Rounding a non-negative quantity that does not exceed [M * 2 ^ k]
    gives a float that does not exceed it either, when [M * 2 ^ k] is
    itself on the grid of the result. *)
Lemma binary_round_aux_bounded (mx ex : Z) (lx : location) (M k : Z) :
  0 <= mx -> 0 < M ->
  ex <= k -> fexp prec emax (Zdigits2 mx + ex) <= k ->
  (mx < M * 2 ^ (k - ex) \/ (mx = M * 2 ^ (k - ex) /\ lx = loc_Exact)) ->
  fexp prec emax (Zdigits2 M + k) <= k -> k <= emax - prec ->
  binary_round_aux prec emax false mx ex lx = S754_zero false \/
  exists m e,
    binary_round_aux prec emax false mx ex lx = S754_finite false m e /\
    e <= k /\ Zpos m <= M * 2 ^ (k - e).
Proof.
  intros Hmx HM Hex Hfx Hle HfM Hk. unfold binary_round_aux.
  destruct (shr_fexp prec emax mx ex lx) as [mrs' e'] eqn:E1.
  unfold shr_fexp in E1.
  (* first shift and rounding *)
  assert (ex <= e' /\ e' <= k /\ 0 <= shr_m mrs' /\
          round_nearest_even (shr_m mrs') (loc_of_shr_record mrs') <= M * 2 ^ (k - e'))
    as (Hee & He'k & Hm'0 & Hround).
  { destruct (shr_spec _ _ _ _ _ _ Hmx E1) as [(Hn & -> & Hm & Hl)|(Hn & -> & Hm & Hl)].
    - rewrite Hm, Hl. split; [lia|]. split; [done|]. split; [done|].
      pose proof (round_nearest_even_bounds mx lx).
      destruct Hle as [Hlt|[Heq ->]]; [lia|]. simpl. lia.
    - set (n := fexp prec emax (Zdigits2 mx + ex) - ex) in *.
      assert (ex + n <= k) by (subst n; lia).
      assert (M * 2 ^ (k - ex) = M * 2 ^ (k - (ex + n)) * 2 ^ n) as Hsplit.
      { replace (k - ex) with (k - (ex + n) + n) by lia.
        rewrite pow2_split by lia. lia. }
      assert (0 < 2 ^ n) by (apply Z.pow_pos_nonneg; lia).
      split; [lia|]. split; [done|]. rewrite Hm.
      split; [apply Z.div_pos; lia|].
      pose proof (round_nearest_even_bounds (mx / 2 ^ n) (loc_of_shr_record mrs')).
      destruct Hle as [Hlt|[Heq ->]].
      + assert (mx / 2 ^ n < M * 2 ^ (k - (ex + n))); [|lia].
        apply Z.div_lt_upper_bound; [done|]. lia.
      + rewrite Hl; [| |done].
        * simpl. rewrite Heq, Hsplit, Z.div_mul by lia. lia.
        * rewrite Heq, Hsplit. apply Z.mod_mul. lia. }
  set (mr := round_nearest_even (shr_m mrs') (loc_of_shr_record mrs')) in *.
  assert (0 <= mr) as Hmr0.
  { pose proof (round_nearest_even_bounds (shr_m mrs') (loc_of_shr_record mrs')). lia. }
  destruct (shr_fexp prec emax mr e' loc_Exact) as [mrs'' e''] eqn:E2.
  unfold shr_fexp in E2.
  assert (e'' <= k /\ 0 <= shr_m mrs'' <= M * 2 ^ (k - e'')) as (He''k & Hm'').
  { assert (0 < M * 2 ^ (k - e')) as Hpos.
    { apply Z.mul_pos_pos; [done|]. apply Z.pow_pos_nonneg; lia. }
    assert (Zdigits2 mr + e' <= Zdigits2 M + k) as Hdig.
    { assert (Zdigits2 mr <= Zdigits2 M + (k - e')); [|lia].
      pose proof (Zdigits2_nonneg M).
      apply Zdigits2_le; [done|lia|].
      rewrite pow2_split by lia.
      pose proof (Zdigits2_lt_pow M ltac:(lia)).
      assert (0 < 2 ^ (k - e')) by (apply Z.pow_pos_nonneg; lia). nia. }
    apply fexp_mono in Hdig.
    destruct (shr_spec _ _ _ _ _ _ Hmr0 E2) as [(Hn & -> & Hm & _)|(Hn & -> & Hm & _)].
    - rewrite Hm. lia.
    - set (n := fexp prec emax (Zdigits2 mr + e') - e') in *.
      assert (e' + n <= k) by (subst n; lia). split; [done|]. rewrite Hm.
      assert (0 < 2 ^ n) by (apply Z.pow_pos_nonneg; lia).
      split; [apply Z.div_pos; lia|].
      apply Z.div_le_upper_bound; [done|].
      replace (k - e') with (k - (e' + n) + n) in Hround by lia.
      rewrite pow2_split in Hround by lia. lia. }
  destruct (shr_m mrs'') as [|m|m] eqn:Em; [by left| |lia].
  right. exists m, e''. rewrite (proj2 (Z.leb_le e'' (emax - prec))) by lia.
  split; [done|]. split; [done|]. lia.
Qed.

Lemma new_location_exact (n : Z) : new_location n 0 = loc_Exact.
Proof. unfold new_location, new_location_even, new_location_odd. by destruct (Z.even n). Qed.

Lemma int_true_div_within_unit (p t : Z) :
  0 <= p <= t -> 1 <= t -> float_within 1 0 (int_true_div p t).
Proof.
  intros Hp Ht. unfold int_true_div, float_within.
  destruct t as [|t|t]; try lia. destruct p as [|p|p]; try lia; [by left|].
  cbn [int_operand SFdiv]. unfold SFdiv_core_binary.
  set (e' := Z.min (fexp prec emax (Zdigits2 (Z.pos p) + 0 - (Zdigits2 (Z.pos t) + 0))) (0 - 0)).
  set (s := 0 - 0 - e').
  assert (e' <= 0) as He' by (subst e'; lia).
  assert (0 <= s) as Hs by (subst s; lia).
  assert (match s with
          | 0 => Z.pos p
          | Z.pos _ => Z.shiftl (Z.pos p) s
          | Z.neg _ => 0
          end = Z.pos p * 2 ^ s) as ->.
  { destruct s as [|s'|s'] eqn:Es; [simpl; lia| |lia]. by rewrite Z.shiftl_mul_pow2. }
  pose proof (Z_div_mod (Z.pos p * 2 ^ s) (Z.pos t) ltac:(lia)) as Hdm.
  destruct (Z.div_eucl (Z.pos p * 2 ^ s) (Z.pos t)) as [q r]. destruct Hdm as [Hq Hr].
  assert (0 < 2 ^ s) as Hpow by (apply Z.pow_pos_nonneg; lia).
  assert (0 <= q) as Hq0 by nia.
  assert (q <= 2 ^ s) as Hqs by nia.
  simpl xorb. apply binary_round_aux_bounded; try done.
  - pose proof (Zdigits2_le q (s + 1) Hq0 ltac:(lia)) as Hd.
    rewrite Z.pow_add_r, Z.pow_1_r in Hd by lia. specialize (Hd ltac:(lia)).
    assert (fexp prec emax (Zdigits2 q + e') <= fexp prec emax 1) as Hf
      by (apply fexp_mono; subst s; lia).
    change (fexp prec emax 1) with (-52) in Hf. lia.
  - replace (0 - e') with s by (subst s; lia). rewrite Z.mul_1_l.
    destruct (decide (q < 2 ^ s)) as [|Hge]; [by left|]. right.
    assert (q = 2 ^ s) as -> by lia. split; [done|].
    assert (r = 0) as -> by nia. apply new_location_exact.
Qed.

Lemma float_mul_100_within (x : spec_float) :
  float_within 1 0 x -> float_within 25 2 (float_mul x float_100).
Proof.
  unfold float_within. intros [->|(m & e & -> & He & Hm)]; [by left|].
  unfold float_mul, float_100. cbn [SFmul]. simpl xorb.
  rewrite Z.mul_1_l, Z.sub_0_l in Hm.
  assert (0 < 2 ^ (- e)) as Hpow by (apply Z.pow_pos_nonneg; lia).
  assert (25 * 2 ^ (2 - (e + -46)) = 2 ^ (- e) * 7036874417766400) as Hbound.
  { replace (2 - (e + -46)) with (- e + 48) by lia. rewrite Z.pow_add_r by lia.
    change (2 ^ 48) with 281474976710656. lia. }
  apply binary_round_aux_bounded; try done; try lia.
  - assert (Zdigits2 (Z.pos (m * 7036874417766400)) <= - e + 53) as Hd.
    { apply Zdigits2_le; [lia|lia|]. rewrite Z.pow_add_r by lia.
      change (2 ^ 53) with 9007199254740992. rewrite Pos2Z.inj_mul.
      assert (Z.pos m * 7036874417766400 <= 2 ^ (- e) * 7036874417766400)
        by (apply Z.mul_le_mono_nonneg_r; lia).
      lia. }
    assert (fexp prec emax (Zdigits2 (Z.pos (m * 7036874417766400)) + (e + -46))
            <= fexp prec emax 7) as Hf by (apply fexp_mono; lia).
    change (fexp prec emax 7) with (-46) in Hf. lia.
  - rewrite Hbound, Pos2Z.inj_mul.
    destruct (decide (Z.pos m < 2 ^ (- e))) as [|Hge];
      [left; apply Z.mul_lt_mono_pos_r; lia|].
    right. split; [|done]. assert (Z.pos m = 2 ^ (- e)) as -> by lia. done.
Qed.

Lemma float_within_value (M k : Z) (x : spec_float) :
  0 <= M -> 0 <= k -> float_within M k x ->
  SFfinite x = true /\ (0 <= SF2Q x <= inject_Z (M * 2 ^ k))%Q.
Proof.
  intros HM Hk [->|(m & e & -> & He & Hm)].
  - split; [done|]. simpl. unfold Qle. simpl.
    assert (0 <= 2 ^ k) by (apply Z.pow_nonneg; lia). nia.
  - split; [done|]. unfold SF2Q. cbv zeta.
    assert (0 < 2 ^ (k - e)) by (apply Z.pow_pos_nonneg; lia).
    destruct (0 <=? e) eqn:E.
    + apply Z.leb_le in E.
      assert (0 < 2 ^ e) by (apply Z.pow_pos_nonneg; lia).
      assert (2 ^ k = 2 ^ (k - e) * 2 ^ e) as Hk2
        by (rewrite <- Z.pow_add_r by lia; f_equal; lia).
      unfold Qle. cbn [Qnum Qden inject_Z]. rewrite !Z.mul_1_r, Hk2.
      split; [lia|]. rewrite Z.mul_assoc.
      apply Z.mul_le_mono_nonneg_r; lia.
    + apply Z.leb_gt in E.
      assert (0 < 2 ^ (- e)) as Hpe by (apply Z.pow_pos_nonneg; lia).
      assert (2 ^ (k - e) = 2 ^ k * 2 ^ (- e)) as Hk2
        by (rewrite <- Z.pow_add_r by lia; f_equal; lia).
      unfold Qle. cbn [Qnum Qden inject_Z]. rewrite Z2Pos.id by done.
      rewrite !Z.mul_1_r. split; [lia|]. rewrite <- Z.mul_assoc, <- Hk2. lia.
Qed.

Lemma pass_rate_within (passes total : Z) :
  0 <= passes <= total -> 1 <= total ->
  SFfinite (float_mul (int_true_div passes total) float_100) = true /\
  (0 <= SF2Q (float_mul (int_true_div passes total) float_100) <= 100)%Q.
Proof.
  intros Hp Ht.
  apply (float_within_value 25 2); [lia|lia|].
  by apply float_mul_100_within, int_true_div_within_unit.
Qed.

Lemma iloc_lookup {A} (s : list (date * A)) (i : nat) (d : date) (a : A) :
  s !! i = Some (d, a) -> iloc s i = Some a.
Proof. intros H. unfold iloc. by rewrite H. Qed.

Section PassRateProperties.

Variable pvalue : alternative -> Z -> Z -> Q.
Variable alpha : Q.

Lemma binomtest_accepts row coeff :
  Forall (fun c => 0 <= c) row -> sum row <> 0 ->
  binomtest pvalue (nlargest_sum row coeff) (sum row) Greater
    = Done (pvalue Greater (nlargest_sum row coeff) (sum row)).
Proof.
  intros Hrow Hsum. unfold binomtest.
  pose proof (nlargest_sum_bounds row coeff Hrow). rewrite decide_False; [done|lia].
Qed.

Lemma Qlt_bool_iff (x y : Q) : Qlt_bool x y = true <-> (x < y)%Q.
Proof.
  unfold Qlt_bool. rewrite negb_true_iff, <- not_true_iff_false, Qle_bool_iff.
  split; [apply Qnot_le_lt|apply Qlt_not_le].
Qed.

Lemma Qgt_bool_false_iff (x y : Q) : Qgt_bool x y = false <-> (x <= y)%Q.
Proof. unfold Qgt_bool. by rewrite negb_false_iff, Qle_bool_iff. Qed.

(** The counters of the loop of [binom_p], from position [i] on: the
    rows with blocks, and those of them that pass. *)
Lemma binom_p_loop_counts (rows : list (date * list Z)) (nc : list (date * Z))
    (n i : nat) (passes0 total0 : Z) :
  Forall (Forall (fun c => 0 <= c)) rows.*2 ->
  (length rows <= length nc)%nat ->
  n = (length rows - i)%nat ->
  binom_p_loop pvalue alpha rows nc (seq i n) passes0 total0
  = Done
      (passes0 + Z.of_nat (length (filter (passes_test pvalue alpha)
                                     (filter (fun rc : list Z * Z => sum rc.1 <> 0)
                                        (drop i (zip rows.*2 nc.*2))))),
       total0 + Z.of_nat (length (filter (fun rc : list Z * Z => sum rc.1 <> 0)
                                    (drop i (zip rows.*2 nc.*2))))).
Proof.
  intros Hrows Hnc. revert i passes0 total0.
  induction n as [|n IH]; intros i passes0 total0 Hn.
  - rewrite drop_ge by (rewrite length_zip_with, !length_fmap; lia).
    cbn. f_equal. apply pair_equal_spec. lia.
  - destruct (lookup_lt_is_Some_2 rows i) as [[d row] Hi]; [lia|].
    destruct (lookup_lt_is_Some_2 nc i) as [[d' coeff] Hc]; [lia|].
    assert (Forall (fun c => 0 <= c) row) as Hrow.
    { eapply (Forall_lookup_1 _ _ i); [exact Hrows|]. by rewrite list_lookup_fmap, Hi. }
    assert (zip rows.*2 nc.*2 !! i = Some (row, coeff)) as Hz
      by (by rewrite lookup_zip_with, !list_lookup_fmap, Hi, Hc).
    rewrite (drop_S _ _ _ Hz).
    cbn [seq binom_p_loop]. rewrite (iloc_lookup _ _ _ _ Hi).
    cbn [or_raise mbind outcome_bind].
    destruct (decide (sum row <> 0)) as [Hnum|Hnum].
    + rewrite (iloc_lookup _ _ _ _ Hc). cbn [or_raise mbind outcome_bind].
      rewrite (binomtest_accepts row _ Hrow Hnum). cbn [mbind outcome_bind].
      rewrite (IH (S i)) by lia. rewrite nlargest_sum_top_sum.
      rewrite (filter_cons_True (fun rc : list Z * Z => sum rc.1 <> 0)) by done.
      destruct (Qlt_bool _ alpha) eqn:Hp.
      * rewrite (filter_cons_True (passes_test pvalue alpha)) by (by apply Qlt_bool_iff).
        rewrite !length_cons. f_equal. apply pair_equal_spec. lia.
      * rewrite (filter_cons_False (passes_test pvalue alpha)).
        { rewrite !length_cons. f_equal. apply pair_equal_spec. lia. }
        intros Hlt. apply Qlt_bool_iff in Hlt. cbn [fst snd] in Hlt. congruence.
    + rewrite (IH (S i)) by lia.
      by rewrite (filter_cons_False (fun rc : list Z * Z => sum rc.1 <> 0)) by done.
Qed.

(** The value of [binom_p] on a table of non-negative counts with a
    coefficient for every position. *)
Lemma binom_p_counts (blocks_df : BlocksFrame) (nc_df : list (date * Z)) :
  nonneg_counts blocks_df ->
  (length (bf_rows blocks_df) <= length nc_df)%nat ->
  binom_p pvalue alpha blocks_df nc_df =
    let passes := Z.of_nat (length (passed_rows pvalue alpha blocks_df nc_df)) in
    let total := Z.of_nat (length (tested_rows blocks_df nc_df)) in
    if decide (total = 0) then Raise ZeroDivisionError
    else Done (float_mul (int_true_div passes total) float_100).
Proof.
  intros Hnn Hnc. unfold binom_p, bf_index. rewrite length_fmap.
  rewrite (binom_p_loop_counts (bf_rows blocks_df) nc_df _ 0 0 0 Hnn Hnc) by lia.
  by rewrite drop_0, !Z.add_0_l.
Qed.

Lemma filter_fmap_iff {A B} (P : B -> Prop) (Q : A -> Prop)
    `{!forall y, Decision (P y)} `{!forall x, Decision (Q x)} (f : A -> B) (l : list A) :
  (forall x, P (f x) <-> Q x) -> filter P (f <$> l) = f <$> filter Q l.
Proof.
  intros HPQ. induction l as [|x l IH]; [done|]. rewrite fmap_cons.
  destruct (decide (Q x)) as [Hx|Hx].
  - rewrite (filter_cons_True Q), (filter_cons_True P) by (done || by apply HPQ).
    by rewrite fmap_cons, IH.
  - rewrite (filter_cons_False Q), (filter_cons_False P) by (done || by rewrite HPQ).
    done.
Qed.

Lemma zip_point_estimates (rows : list (date * list Z)) :
  zip rows.*2 (prod_map id compute_nakamoto_coefficient <$> rows).*2 =
  (fun dr : date * list Z => (dr.2, compute_nakamoto_coefficient dr.2)) <$> rows.
Proof.
  induction rows as [|[d row] rows IH]; [done|].
  rewrite !fmap_cons. cbn [zip_with fst snd prod_map]. by rewrite IH.
Qed.

Lemma tested_rows_point_estimates (blocks_df : BlocksFrame) :
  tested_rows blocks_df (compute_nakamoto_coefficients blocks_df) =
  (fun dr : date * list Z => (dr.2, compute_nakamoto_coefficient dr.2))
  <$> nonzero_dates blocks_df.
Proof.
  unfold tested_rows, nonzero_dates, compute_nakamoto_coefficients, bf_data.
  rewrite zip_point_estimates. by apply filter_fmap_iff.
Qed.

(** The value of [binom_p] with the point estimates, from the numbers
    of passing dates and of dates with blocks. *)
Lemma binom_p_value (blocks_df : BlocksFrame) :
  nonneg_counts blocks_df ->
  binom_p pvalue alpha blocks_df (compute_nakamoto_coefficients blocks_df) =
    let passes := Z.of_nat (length (passing_dates pvalue alpha blocks_df)) in
    let total := Z.of_nat (length (nonzero_dates blocks_df)) in
    if decide (total = 0) then Raise ZeroDivisionError
    else Done (float_mul (int_true_div passes total) float_100).
Proof.
  intros Hnn. rewrite binom_p_counts; [|done|].
  - unfold passed_rows. rewrite tested_rows_point_estimates.
    rewrite (filter_fmap_iff _
               (fun dr => passes_test pvalue alpha (dr.2, compute_nakamoto_coefficient dr.2)))
      by done.
    fold (passing_dates pvalue alpha blocks_df). by rewrite !length_fmap.
  - unfold compute_nakamoto_coefficients. by rewrite length_fmap.
Qed.

Lemma tested_rows_count (data : list (list Z)) (coeffs : list Z) :
  (length data <= length coeffs)%nat ->
  length (filter (fun rc : list Z * Z => sum rc.1 <> 0) (zip data coeffs)) =
  length (filter (fun row => sum row <> 0) data).
Proof.
  revert coeffs. induction data as [|row data IH]; intros [|c coeffs] Hlen;
    simpl in Hlen; [done|done|lia|].
  cbn [zip_with]. destruct (decide (sum row <> 0)) as [Hs|Hs].
  - rewrite (filter_cons_True (fun rc : list Z * Z => sum rc.1 <> 0)),
      (filter_cons_True (fun row => sum row <> 0)) by done.
    rewrite !length_cons, IH by lia. done.
  - rewrite (filter_cons_False (fun rc : list Z * Z => sum rc.1 <> 0)),
      (filter_cons_False (fun row => sum row <> 0)) by done.
    apply IH. lia.
Qed.

(** C6, amended: on a table of counts with a date of nonzero total,
    and with a coefficient frame that has a coefficient for every
    position (as the point estimates of [compute_nakamoto_coefficients]
    do), [binom_p] returns the binary64 number [(passes / total) * 100]:
    the quotient of the number of passing dates by the number of dates
    with nonzero total, rounded to binary64, times 100, rounded again.
    A date with nonzero total passes exactly when the p-value of the
    ['greater'] test, with the sum of the top coefficient counts of
    its row as [k] and its total as [n], is strictly below [alpha];
    dates with zero total count on neither side.  The result is a
    finite number in [0, 100]. *)
Theorem binom_p_pass_rate_binary64 (blocks_df : BlocksFrame) (nc_df : list (date * Z)) :
  int64_counts blocks_df ->
  (length (bf_rows blocks_df) <= length nc_df)%nat ->
  Exists (fun row => sum row <> 0) (bf_data blocks_df) ->
  let passes := Z.of_nat (length (passed_rows pvalue alpha blocks_df nc_df)) in
  let total := Z.of_nat (length (tested_rows blocks_df nc_df)) in
  total = Z.of_nat (length (filter (fun row => sum row <> 0) (bf_data blocks_df))) /\
  exists rate,
    binom_p pvalue alpha blocks_df nc_df = Done rate /\
    rate = float_mul (int_true_div passes total) float_100 /\
    SFfinite rate = true /\
    (0 <= SF2Q rate <= 100)%Q.
Proof.
  intros [Hnn _] Hnc Hex passes total.
  assert (total = Z.of_nat (length (filter (fun row => sum row <> 0) (bf_data blocks_df))))
    as Htotal.
  { unfold total, tested_rows. rewrite tested_rows_count; [done|].
    unfold bf_data. rewrite !length_fmap. lia. }
  split; [done|].
  assert (0 < total) as Hpos.
  { rewrite Htotal. apply Exists_exists in Hex as (row & Hin & Hsum).
    assert (row ∈ filter (fun row => sum row <> 0) (bf_data blocks_df)) as Hf
      by (by apply list_elem_of_filter).
    destruct (filter _ (bf_data blocks_df)); [by apply elem_of_nil in Hf|simpl; lia]. }
  rewrite binom_p_counts by done. cbv zeta. fold passes total.
  rewrite decide_False by lia. eexists. split; [done|]. split; [done|].
  apply pass_rate_within; [|lia]. split; [lia|].
  apply inj_le. unfold passed_rows. apply length_filter.
Qed.

Lemma binom_p_loop_idle (rows : list (date * list Z)) nc (n i : nat) (passes total : Z) :
  Forall (fun row => sum row = 0) rows.*2 ->
  (i + n <= length rows)%nat ->
  binom_p_loop pvalue alpha rows nc (seq i n) passes total = Done (passes, total).
Proof.
  intros Hrows. revert i.
  induction n as [|n IH]; intros i Hn; simpl; [done|].
  destruct (lookup_lt_is_Some_2 rows i) as [[d row] Hi]; [lia|].
  assert (sum row = 0) as Hrow.
  { apply (Forall_lookup_1 _ _ i row Hrows). by rewrite list_lookup_fmap, Hi. }
  rewrite (iloc_lookup _ _ _ _ Hi). simpl. rewrite decide_False by lia.
  apply IH. lia.
Qed.

(** C7: when every date has total 0, [binom_p] divides by zero: it
    raises [ZeroDivisionError] and signals nothing else. *)
Theorem binom_p_all_zero_raises (blocks_df : BlocksFrame) (nc_df : list (date * Z)) :
  Forall (fun row => sum row = 0) (bf_data blocks_df) ->
  binom_p pvalue alpha blocks_df nc_df = Raise ZeroDivisionError.
Proof.
  intros Hz. unfold binom_p, bf_index. rewrite length_fmap.
  by rewrite (binom_p_loop_idle _ _ _ 0 0 0 Hz) by lia.
Qed.

End PassRateProperties.

Lemma binom_p_pass_rate_binary64_witness :
  int64_counts thirds_df /\
  (length (bf_rows thirds_df) <= length (compute_nakamoto_coefficients thirds_df))%nat /\
  Exists (fun row => sum row <> 0) (bf_data thirds_df) /\
  let nc_df := compute_nakamoto_coefficients thirds_df in
  let passes := Z.of_nat (length (passed_rows exact_pvalue alpha_default thirds_df nc_df)) in
  let total := Z.of_nat (length (tested_rows thirds_df nc_df)) in
  total = Z.of_nat (length (filter (fun row => sum row <> 0) (bf_data thirds_df))) /\
  exists rate,
    binom_p exact_pvalue alpha_default thirds_df nc_df = Done rate /\
    rate = float_mul (int_true_div passes total) float_100 /\
    SFfinite rate = true /\
    (0 <= SF2Q rate <= 100)%Q.
Proof.
  assert (H1 : int64_counts thirds_df)
    by (split; [repeat constructor; lia | by vm_compute]).
  assert (H2 : (length (bf_rows thirds_df)
                <= length (compute_nakamoto_coefficients thirds_df))%nat)
    by (simpl; lia).
  assert (H3 : Exists (fun row => sum row <> 0) (bf_data thirds_df))
    by (by apply Exists_cons_hd).
  split; [exact H1|]. split; [exact H2|]. split; [exact H3|].
  apply (binom_p_pass_rate_binary64 exact_pvalue alpha_default thirds_df
           (compute_nakamoto_coefficients thirds_df) H1 H2 H3).
Defined.

(** C6, as stated, does not hold: on three dates with blocks of which
    two pass with their point estimate, [binom_p] returns
    66.66666666666666, which is neither the number 100 * 2 / 3 nor the
    binary64 number nearest to it. *)
Lemma binom_p_rate_is_rounded_twice :
  compute_nakamoto_coefficients thirds_df = [(1, 2); (2, 2); (3, 2)] /\
  length (passed_rows exact_pvalue alpha_default thirds_df
            (compute_nakamoto_coefficients thirds_df)) = 2%nat /\
  length (tested_rows thirds_df (compute_nakamoto_coefficients thirds_df)) = 3%nat /\
  exists rate,
    binom_p exact_pvalue alpha_default thirds_df (compute_nakamoto_coefficients thirds_df)
      = Done rate /\
    rate = S754_finite false 4691249611844266 (-46) /\
    ~ (SF2Q rate == 100 * inject_Z 2 / inject_Z 3)%Q /\
    rate <> int_true_div (100 * 2) 3.
Proof.
  split; [by vm_compute|]. split; [by vm_compute|]. split; [by vm_compute|].
  exists (S754_finite false 4691249611844266 (-46)).
  split; [by vm_compute|]. split; [done|]. split; [by vm_compute|].
  by vm_compute.
Qed.

Lemma binom_p_all_zero_raises_witness :
  Forall (fun row => sum row = 0) (bf_data idle_df) /\
  binom_p exact_pvalue alpha_default idle_df (compute_nakamoto_coefficients idle_df)
    = Raise ZeroDivisionError.
Proof.
  assert (H : Forall (fun row => sum row = 0) (bf_data idle_df))
    by (repeat constructor).
  split; [exact H|].
  apply (binom_p_all_zero_raises exact_pvalue alpha_default idle_df _ H).
Defined.

(** ** Temporal aggregator: properties *)

Lemma dict_set_fresh {A} (d : list (date * A)) (k : date) (v : A) :
  k ∉ d.*1 -> dict_set d k v = d ++ [(k, v)].
Proof.
  induction d as [|[k' v'] d IH]; simpl; [done|].
  intros Hk. apply not_elem_of_cons in Hk as [Hne Hk].
  rewrite decide_False by done. by rewrite IH.
Qed.

Lemma to_dict_fold {A} (acc rows : list (date * A)) :
  NoDup (acc ++ rows).*1 ->
  foldl (fun d kv => dict_set d kv.1 kv.2) acc rows = acc ++ rows.
Proof.
  revert acc. induction rows as [|[k v] rows IH]; intros acc Hnd; simpl.
  - by rewrite app_nil_r.
  - rewrite dict_set_fresh.
    + rewrite IH, <- app_assoc; [done|]. by rewrite <- app_assoc.
    + rewrite fmap_app in Hnd. apply NoDup_app in Hnd as (_ & Hnd & _).
      intros Hk. apply (Hnd k Hk). simpl. left.
Qed.

Lemma to_dict_distinct {A} (rows : list (date * A)) :
  NoDup rows.*1 -> to_dict rows = rows.
Proof. intros Hnd. unfold to_dict. by rewrite to_dict_fold. Qed.

Lemma increasing_NoDup (l : list Z) : StronglySorted Z.lt l -> NoDup l.
Proof.
  induction 1 as [|x l _ IH Hx]; constructor; [|done].
  intros Hin. rewrite Forall_forall in Hx. specialize (Hx x Hin). lia.
Qed.

#[global] Instance by_date_trans {A} : Transitive (@by_date A).
Proof. unfold by_date. intros x y z ??. lia. Qed.
#[global] Instance by_date_total {A} : Total (@by_date A).
Proof. unfold by_date. intros x y. lia. Qed.

Lemma increasing_by_date {A} (d : list (date * A)) :
  StronglySorted Z.lt d.*1 -> StronglySorted by_date d.
Proof.
  induction d as [|x d IH]; simpl; [constructor|].
  intros Hs. apply StronglySorted_inv in Hs as [Hs Hx]. constructor; [by apply IH|].
  rewrite Forall_fmap in Hx. eapply Forall_impl; [exact Hx|].
  intros y Hy. unfold by_date. simpl in Hy. lia.
Qed.

Lemma increasing_key_inj {A} (d : list (date * A)) (x y : date * A) :
  StronglySorted Z.lt d.*1 -> x ∈ d -> y ∈ d -> x.1 = y.1 -> x = y.
Proof.
  induction d as [|z d IH]; simpl; [by intros _ ?%elem_of_nil|].
  intros Hs Hx Hy Hk. apply StronglySorted_inv in Hs as [Hs Hz].
  rewrite Forall_fmap, Forall_forall in Hz.
  apply elem_of_cons in Hx as [->|Hx]; apply elem_of_cons in Hy as [->|Hy]; [done| | |by apply IH].
  - specialize (Hz y Hy). simpl in Hz. lia.
  - specialize (Hz x Hx). simpl in Hz. lia.
Qed.

Lemma sorted_items_increasing {A} (d : list (date * A)) :
  StronglySorted Z.lt d.*1 -> sorted_items d = d.
Proof.
  intros Hs. unfold sorted_items.
  apply (StronglySorted_unique_strong by_date).
  - intros x y Hx Hy Hxy Hyx. rewrite merge_sort_Permutation in Hx.
    apply (increasing_key_inj d); [done..|]. unfold by_date in *. lia.
  - apply (StronglySorted_merge_sort by_date).
  - by apply increasing_by_date.
  - apply merge_sort_Permutation.
Qed.

Lemma rows_from_take_drop (data : list (list Z)) (r lo hi : Z) :
  rows_from data r lo hi =
    take (Z.to_nat (Z.min hi (r + Z.of_nat (length data)) - Z.max lo r))
         (drop (Z.to_nat (Z.max lo r - r)) data).
Proof.
  revert r. induction data as [|row data IH]; intros r; simpl rows_from.
  - by rewrite drop_nil, take_nil.
  - rewrite IH. cbn [length]. case_decide as Hr.
    + replace (Z.to_nat (Z.max lo r - r)) with 0%nat by lia.
      replace (Z.to_nat (Z.max lo (r + 1) - (r + 1))) with 0%nat by lia.
      rewrite !drop_0.
      replace (Z.to_nat (Z.min hi (r + Z.of_nat (S (length data))) - Z.max lo r))
        with (S (Z.to_nat (Z.min hi (r + 1 + Z.of_nat (length data)) - Z.max lo (r + 1))))
        by lia.
      done.
    + destruct (decide (r < lo)) as [Hlo|Hlo].
      * replace (Z.to_nat (Z.max lo r - r))
          with (S (Z.to_nat (Z.max lo (r + 1) - (r + 1)))) by lia.
        simpl drop. f_equal. lia.
      * replace (Z.to_nat (Z.min hi (r + 1 + Z.of_nat (length data)) - Z.max lo (r + 1)))
          with 0%nat by lia.
        replace (Z.to_nat (Z.min hi (r + Z.of_nat (S (length data))) - Z.max lo r))
          with 0%nat by lia.
        done.
Qed.

Lemma half_window_bounds (num : Z) : 1 <= num -> 0 <= num `div` 2 /\ 1 <= num - num `div` 2.
Proof.
  intros Hn. pose proof (Z.div_mod num 2). pose proof (Z.mod_pos_bound num 2). lia.
Qed.

(** The slice of the source is the range of the specification. *)
Lemma py_slice_window (l : list (list Z)) (num : Z) (i : nat) :
  1 <= num -> (i < length l)%nat ->
  py_slice l (Z.of_nat i - num `div` 2) (Z.of_nat i + (num - num `div` 2)) =
  rows_in_range l (window_start (Z.of_nat (length l)) (Z.of_nat i) (num `div` 2))
    (Z.of_nat i + (num - num `div` 2)).
Proof.
  intros Hnum Hi. destruct (half_window_bounds num Hnum) as [Hs Hw].
  unfold py_slice, rows_in_range, window_start, slice_bound.
  rewrite rows_from_take_drop.
  rewrite (decide_False (P := Z.of_nat i + (num - num `div` 2) < 0)) by lia.
  case_decide; f_equal; f_equal; lia.
Qed.

Lemma sum_zip_with_cons (r : list Z) (cols : list (list Z)) :
  sum <$> zip_with cons r cols = zip_with Z.add r (sum <$> cols).
Proof.
  revert cols. induction r as [|x r IH]; intros [|c cols]; simpl; [done..|].
  by rewrite IH.
Qed.

(** Summing the columns of [zip] is adding the rows element by element. *)
Lemma sum_zip_star (rows : list (list Z)) :
  sum <$> zip_star rows = elementwise_sum rows.
Proof.
  induction rows as [|r rows IH]; [done|].
  destruct rows as [|r' rows].
  - simpl. rewrite <- list_fmap_compose. rewrite <- (list_fmap_id r) at 2.
    apply list_fmap_ext. intros _ x _. unfold sum. simpl. lia.
  - change (zip_star (r :: r' :: rows)) with (zip_with cons r (zip_star (r' :: rows))).
    rewrite sum_zip_with_cons, IH. done.
Qed.

(** Entry [j] of an element-wise sum is the sum of the entries [j]. *)
Lemma elementwise_sum_lookup (rows : list (list Z)) (j : nat) :
  rows <> [] ->
  Forall (fun row => is_Some (row !! j)) rows ->
  elementwise_sum rows !! j = Some (sum ((fun row => default 0 (row !! j)) <$> rows)).
Proof.
  induction rows as [|r rows IH]; [done|]. intros _ Hall.
  apply Forall_cons in Hall as [[x Hx] Hall].
  destruct rows as [|r' rows].
  - simpl. rewrite Hx. unfold sum. simpl. f_equal. lia.
  - change (elementwise_sum (r :: r' :: rows))
      with (zip_with Z.add r (elementwise_sum (r' :: rows))).
    rewrite lookup_zip_with, Hx, IH by done. simpl. by rewrite Hx.
Qed.

Lemma rows_from_elem_of (data : list (list Z)) (r lo hi : Z) (row : list Z) :
  row ∈ rows_from data r lo hi -> row ∈ data.
Proof.
  revert r. induction data as [|row' data IH]; intros r; simpl; [done|].
  case_decide.
  - intros [->|Hin]%elem_of_cons; [left|right; by eapply IH].
  - intros Hin. right. by eapply IH.
Qed.

Lemma rows_from_contains (data : list (list Z)) (r lo hi : Z) (i : nat) (row : list Z) :
  data !! i = Some row -> lo <= r + Z.of_nat i < hi ->
  row ∈ rows_from data r lo hi.
Proof.
  revert r i. induction data as [|row' data IH]; intros r i; [done|].
  destruct i as [|i]; simpl.
  - intros [= ->] Hr. rewrite decide_True by lia. left.
  - intros Hi Hr. assert (row ∈ rows_from data (r + 1) lo hi) by (apply (IH _ i); [done|lia]).
    case_decide; [by right|done].
Qed.

Lemma elementwise_sum_length (rows : list (list Z)) (m : nat) :
  rows <> [] -> Forall (fun row => length row = m) rows ->
  length (elementwise_sum rows) = m.
Proof.
  induction rows as [|r rows IH]; [done|]. intros _ Hall.
  apply Forall_cons in Hall as [Hr Hall]. destruct rows as [|r' rows]; [done|].
  change (elementwise_sum (r :: r' :: rows))
    with (zip_with Z.add r (elementwise_sum (r' :: rows))).
  rewrite length_zip_with, IH by done. lia.
Qed.

Lemma index_data_length (df : BlocksFrame) : length (bf_index df) = length (bf_data df).
Proof. unfold bf_index, bf_data. by rewrite !length_fmap. Qed.

Lemma granularity_locals_increasing (blocks_df : BlocksFrame) (num : Z) :
  increasing_dates blocks_df ->
  granularity_locals blocks_df num =
    (bf_index blocks_df,
     (fun i : nat =>
        sum <$> zip_star (py_slice (bf_data blocks_df)
                            (Z.of_nat i - num `div` 2)
                            (Z.of_nat i + (num - num `div` 2))))
     <$> seq 0 (length (bf_data blocks_df))).
Proof.
  intros Hs. unfold granularity_locals.
  rewrite to_dict_distinct by (by apply increasing_NoDup).
  by rewrite sorted_items_increasing.
Qed.

(** The rows that [granularity] hands to [pd.DataFrame] are the sums of
    the ranges of the specification. *)
Lemma granularity_locals_windows (blocks_df : BlocksFrame) (num : Z) :
  increasing_dates blocks_df -> 1 <= num ->
  granularity_locals blocks_df num =
    (bf_index blocks_df,
     (fun i : nat => elementwise_sum (window blocks_df num i))
     <$> seq 0 (length (bf_data blocks_df))).
Proof.
  intros Hs Hnum. rewrite granularity_locals_increasing by done. f_equal.
  apply list_fmap_ext. intros k i Hk. apply lookup_seq in Hk as [-> Hlt].
  simpl. rewrite sum_zip_star. unfold window. by rewrite py_slice_window.
Qed.

(** *** The frame that [pd.DataFrame] builds *)

Lemma max_list_bound (l : list nat) (m : nat) :
  Forall (fun n => n <= m)%nat l -> m ∈ l -> max_list l = m.
Proof.
  intros Hall Hin. apply Nat.le_antisymm; [|by apply max_list_elem_of_le].
  clear Hin. induction Hall as [|n l Hn _ IH]; simpl; lia.
Qed.

Lemma frame_row_missing (data : list (list Z)) (m : nat) :
  frame_row data m [] = replicate m NaN.
Proof.
  unfold frame_row. apply list_eq. intros j. rewrite list_lookup_fmap.
  destruct (decide (j < m)%nat).
  - rewrite lookup_seq_lt, lookup_replicate_2 by done. done.
  - rewrite lookup_seq_ge by lia. simpl. symmetry. apply lookup_replicate_None. lia.
Qed.

Lemma frame_row_full (data : list (list Z)) (floats : bool) (row : list Z) :
  (forall j, (j < length row)%nat -> column_has_missing data j = floats) ->
  frame_row data (length row) row = as_cell floats <$> row.
Proof.
  intros Hcol. unfold frame_row. apply list_eq. intros j. rewrite !list_lookup_fmap.
  destruct (decide (j < length row)%nat) as [Hj|Hj].
  - rewrite lookup_seq_lt by done. simpl.
    destruct (lookup_lt_is_Some_2 row j Hj) as [z ->]. simpl.
    by rewrite (Hcol j Hj).
  - rewrite lookup_seq_ge, lookup_ge_None_2 by lia. done.
Qed.

Lemma column_has_missing_rows (data : list (list Z)) (m j : nat) :
  Forall (fun row => row = [] \/ length row = m) data -> (j < m)%nat ->
  column_has_missing data j = existsb (fun row => bool_decide (row = [])) data.
Proof.
  intros Hall Hj. unfold column_has_missing.
  induction Hall as [|row data Hrow _ IH]; simpl; [done|].
  rewrite IH. f_equal. apply bool_decide_ext.
  destruct Hrow as [->|Hlen]; simpl; [split; [done|lia]|].
  split; [lia|]. intros ->. simpl in Hlen. lia.
Qed.

Lemma existsb_fmap {A B} (f : B -> bool) (g : A -> B) (l : list A) :
  existsb f (g <$> l) = existsb (fun x => f (g x)) l.
Proof.
  induction l as [|x l IH]; [done|]. rewrite fmap_cons. cbn [existsb]. by rewrite IH.
Qed.

Lemma existsb_ext_in {A} (f g : A -> bool) (l : list A) :
  (forall x, x ∈ l -> f x = g x) -> existsb f l = existsb g l.
Proof.
  induction l as [|x l IH]; simpl; [done|]. intros H.
  rewrite (H x) by left. rewrite IH; [done|]. intros y Hy. apply H. by right.
Qed.

Lemma DataFrame_rows (data : list (list Z)) (index : list date) (columns : list string) :
  data <> [] ->
  DataFrame data index columns =
    if decide (max_list (length <$> data) = length columns /\ length data = length index)
    then Done {| fr_columns := columns;
                 fr_rows := zip index (frame_row data (max_list (length <$> data)) <$> data) |}
    else Raise ValueError.
Proof. by destruct data. Qed.

(** A frame from rows that all have one integer per column holds these
    integers. *)
Lemma DataFrame_rectangular (data : list (list Z)) (index : list date)
    (columns : list string) :
  length data = length index ->
  Forall (fun row => length row = length columns) data ->
  DataFrame data index columns =
    Done {| fr_columns := columns; fr_rows := zip index ((fun row : list Z => CInt <$> row) <$> data) |}.
Proof.
  intros Hlen Hall. destruct (decide (data = [])) as [->|Hne].
  - destruct index; [done|]. simpl in Hlen. lia.
  - rewrite DataFrame_rows by done.
    assert (max_list (length <$> data) = length columns) as Hmax.
    { apply max_list_bound.
      - rewrite Forall_fmap. eapply Forall_impl; [exact Hall|].
        intros r Hr. simpl in *. lia.
      - destruct data as [|row0 data']; [done|].
        apply list_elem_of_fmap. exists row0.
        apply Forall_cons in Hall as [Hr _]. split; [done|left]. }
    rewrite decide_True by done. rewrite Hmax. do 2 f_equal. f_equal.
    apply list_fmap_ext. intros k row Hk.
    assert (length row = length columns) as Hrow
      by (rewrite Forall_forall in Hall; apply Hall; by eapply list_elem_of_lookup_2).
    rewrite <- Hrow. apply (frame_row_full data false).
    intros j Hj. unfold column_has_missing. apply not_true_is_false.
    intros Hex. apply existsb_exists in Hex as (r & Hr & Hb).
    apply bool_decide_eq_true in Hb. apply list_elem_of_In in Hr.
    rewrite Forall_forall in Hall. specialize (Hall r Hr). lia.
Qed.

(** *** The aggregated frame *)

Lemma window_rows (blocks_df : BlocksFrame) (num : Z) (i : nat) (row : list Z) :
  row ∈ window blocks_df num i -> row ∈ bf_data blocks_df.
Proof. unfold window, rows_in_range. apply rows_from_elem_of. Qed.

Lemma window_sum_length (blocks_df : BlocksFrame) (num : Z) (i : nat) :
  rectangular blocks_df -> window blocks_df num i <> [] ->
  length (elementwise_sum (window blocks_df num i)) = length (bf_columns blocks_df).
Proof.
  intros Hrect Hne. apply elementwise_sum_length; [done|].
  unfold rectangular in Hrect. rewrite Forall_forall in *.
  intros row Hrow. apply Hrect. by eapply window_rows.
Qed.

(** The range of the last date holds a row: its own. *)
Lemma window_last (blocks_df : BlocksFrame) (num : Z) (n : nat) :
  1 <= num -> length (bf_data blocks_df) = S n -> window blocks_df num n <> [].
Proof.
  intros Hnum Hlen. destruct (half_window_bounds num Hnum) as [Hs Hw].
  destruct (lookup_lt_is_Some_2 (bf_data blocks_df) n) as [row Hrow]; [lia|].
  intros E. assert (row ∈ @nil (list Z)) as Hin; [|by apply elem_of_nil in Hin].
  rewrite <- E. unfold window, rows_in_range.
  apply (rows_from_contains _ _ _ _ n); [done|].
  unfold window_start. rewrite Hlen. case_decide; lia.
Qed.

(** On a table with increasing dates and one count per entity in every
    row, the aggregated frame for a window [num >= 1]. *)
Lemma granularity_frame (blocks_df : BlocksFrame) (num : Z) :
  increasing_dates blocks_df -> rectangular blocks_df -> 1 <= num ->
  granularity blocks_df num =
    Done {| fr_columns := bf_columns blocks_df;
            fr_rows := zip (bf_index blocks_df)
                         (window_row blocks_df num <$> seq 0 (length (bf_data blocks_df))) |}.
Proof.
  intros Hs Hrect Hnum. unfold granularity.
  rewrite granularity_locals_windows by done.
  pose proof (index_data_length blocks_df) as Hidx.
  set (len := length (bf_data blocks_df)) in *.
  set (data := (fun i : nat => elementwise_sum (window blocks_df num i)) <$> seq 0 len).
  destruct len as [|n] eqn:Elen.
  - destruct (bf_index blocks_df); [done|]. simpl in Hidx. lia.
  - assert (Forall (fun row => row = [] \/ length row = length (bf_columns blocks_df)) data) as Hshape.
    { unfold data. rewrite Forall_fmap. apply Forall_forall. intros i _. simpl.
      destruct (decide (window blocks_df num i = [])) as [->|Hne]; [by left|].
      right. by apply window_sum_length. }
    assert (max_list (length <$> data) = length (bf_columns blocks_df)) as Hmax.
    { apply max_list_bound.
      - rewrite Forall_fmap. eapply Forall_impl; [exact Hshape|].
        intros r [->|Hr]; simpl; lia.
      - apply list_elem_of_fmap. exists (elementwise_sum (window blocks_df num n)).
        split; [symmetry; apply window_sum_length; [done|by apply window_last]|].
        unfold data. apply list_elem_of_fmap. exists n. split; [done|].
        apply elem_of_seq. lia. }
    assert (length data = S n) as Hdata
      by (unfold data; by rewrite length_fmap, length_seq).
    rewrite DataFrame_rows by (intros E; by rewrite E in Hdata).
    rewrite decide_True by (split; [done|lia]).
    rewrite Hmax. do 2 f_equal. f_equal. unfold data at 2.
    rewrite <- list_fmap_compose. apply list_fmap_ext. intros k i Hk.
    apply lookup_seq in Hk as [Hik Hlt]. simpl in Hik. subst k.
    simpl. unfold window_row.
    destruct (decide (window blocks_df num i = [])) as [->|Hne].
    + apply frame_row_missing.
    + rewrite <- (window_sum_length blocks_df num i Hrect Hne).
      apply frame_row_full. intros j Hj.
      rewrite (window_sum_length blocks_df num i Hrect Hne) in Hj.
      rewrite (column_has_missing_rows data _ j Hshape Hj).
      unfold data, some_window_empty. rewrite existsb_fmap. fold len. rewrite Elen.
      apply existsb_ext_in. intros i' _. apply bool_decide_ext.
      split; [|by intros ->].
      intros Hsum. destruct (decide (window blocks_df num i' = [])) as [|Hne']; [done|].
      pose proof (window_sum_length blocks_df num i' Hrect Hne') as Hl.
      rewrite Hsum in Hl. simpl in Hl. lia.
Qed.

Lemma granularity_frame_parts (blocks_df : BlocksFrame) (num : Z) :
  increasing_dates blocks_df -> rectangular blocks_df -> 1 <= num ->
  exists fr,
    granularity blocks_df num = Done fr /\
    fr_index fr = bf_index blocks_df /\
    fr_columns fr = bf_columns blocks_df /\
    fr_data fr = window_row blocks_df num <$> seq 0 (length (bf_data blocks_df)).
Proof.
  intros Hs Hrect Hnum. eexists. split; [by apply granularity_frame|].
  pose proof (index_data_length blocks_df) as Hidx.
  unfold fr_index, fr_data. cbn [fr_rows fr_columns].
  by rewrite fst_zip, snd_zip by (rewrite length_fmap, length_seq; lia).
Qed.




Lemma py_slice_single {A} (l : list A) (i : nat) (x : A) :
  l !! i = Some x -> py_slice l (Z.of_nat i - 0) (Z.of_nat i + (1 - 0)) = [x].
Proof.
  intros Hi. pose proof (lookup_lt_Some _ _ _ Hi) as Hlt.
  unfold py_slice, slice_bound. rewrite !decide_False by lia.
  replace (Z.to_nat (Z.min (Z.of_nat i - 0) (Z.of_nat (length l)))) with i by lia.
  replace (Z.to_nat _) with 1%nat by lia.
  by rewrite (drop_S _ _ _ Hi).
Qed.

Lemma granularity_locals_window_one (blocks_df : BlocksFrame) :
  increasing_dates blocks_df ->
  granularity_locals blocks_df 1 = (bf_index blocks_df, bf_data blocks_df).
Proof.
  intros Hs. rewrite granularity_locals_increasing by done.
  change (1 `div` 2) with 0. f_equal.
  apply list_eq. intros i. rewrite list_lookup_fmap.
  destruct (bf_data blocks_df !! i) as [row|] eqn:Hi.
  - rewrite lookup_seq_lt by (by eapply lookup_lt_Some). simpl.
    by rewrite (py_slice_single _ _ _ Hi), sum_zip_star.
  - rewrite lookup_seq_ge; [done|]. by apply lookup_ge_None.
Qed.

(** C9: on a table with increasing dates the aggregator with window
    size 1 returns the table itself: the dates and the rows that it
    hands to [pd.DataFrame] are those of the table, and the frame built
    from them, on a table with one count per entity in every row, has
    the same dates, the same columns and the same cell values. *)
Theorem granularity_window_one (blocks_df : BlocksFrame) :
  increasing_dates blocks_df ->
  granularity_locals blocks_df 1 = (bf_index blocks_df, bf_data blocks_df) /\
  (rectangular blocks_df -> granularity blocks_df 1 = Done (frame_of blocks_df)).
Proof.
  intros Hs. split; [by apply granularity_locals_window_one|].
  intros Hrect. unfold granularity. rewrite granularity_locals_window_one by done.
  rewrite DataFrame_rectangular; [|by rewrite index_data_length|done].
  unfold frame_of. do 2 f_equal. unfold bf_index, bf_data.
  generalize (bf_rows blocks_df). intros rows.
  induction rows as [|[d row] rows IH]; [done|].
  rewrite !fmap_cons. cbn [zip_with fst snd]. f_equal. exact IH.
Qed.

Lemma granularity_window_one_witness :
  increasing_dates sample_df /\ rectangular sample_df /\
  granularity_locals sample_df 1 = (bf_index sample_df, bf_data sample_df) /\
  granularity sample_df 1 = Done (frame_of sample_df).
Proof.
  assert (H1 : increasing_dates sample_df)
    by (unfold increasing_dates; simpl; repeat constructor).
  assert (H2 : rectangular sample_df) by (repeat constructor).
  split; [exact H1|]. split; [exact H2|].
  destruct (granularity_window_one sample_df H1) as [HA HB].
  split; [exact HA | exact (HB H2)].
Defined.

(** ** Further properties of the estimator *)

Lemma nc_within_entities (row : list Z) :
  0 <= compute_nakamoto_coefficient row <= Z.of_nat (length row).
Proof.
  unfold compute_nakamoto_coefficient. case_decide; [|lia].
  pose proof (nc_loop_lower (sum row) (sort_values row) 0 (S754_zero false)).
  pose proof (nc_loop_upper (sum row) (sort_values row) 0 (S754_zero false)) as Hu.
  rewrite (Permutation_length (sort_values_Permutation row)) in Hu. lia.
Qed.

(** X1: the coefficient counts entities of the row: it lies between 0
    and the number of entities. *)
Theorem nakamoto_within_entities (row : list Z) :
  0 <= compute_nakamoto_coefficient row <= Z.of_nat (length row).
Proof. apply nc_within_entities. Qed.

Lemma loc_compute_nakamoto_coefficients (blocks_df : BlocksFrame) (d : date) :
  loc (compute_nakamoto_coefficients blocks_df) d =
    compute_nakamoto_coefficient <$> loc (bf_rows blocks_df) d.
Proof.
  unfold compute_nakamoto_coefficients.
  induction (bf_rows blocks_df) as [|[d' row] rows IH]; simpl; [done|].
  by case_decide.
Qed.

(** The coefficient frame has the dates of the block frame, in the same
    order, and under each date the coefficient of the row of that date. *)
Lemma coefficients_follow_index (blocks_df : BlocksFrame) :
  (compute_nakamoto_coefficients blocks_df).*1 = bf_index blocks_df /\
  forall d, loc (compute_nakamoto_coefficients blocks_df) d =
              compute_nakamoto_coefficient <$> loc (bf_rows blocks_df) d.
Proof.
  split; [|apply loc_compute_nakamoto_coefficients].
  unfold compute_nakamoto_coefficients, bf_index.
  rewrite <- list_fmap_compose. by apply list_fmap_ext; intros _ [??] _.
Qed.

(** ** Further properties of the range search *)

Section RangeSearchExtras.

Variable pvalue : alternative -> Z -> Z -> Q.
Variable alpha : Q.

Lemma binomtest_Done k n alt p :
  binomtest pvalue k n alt = Done p -> p = pvalue alt k n /\ 0 <= k <= n /\ 1 <= n.
Proof.
  unfold binomtest. case_decide as H; [done|]. intros [= <-]. split; [done|lia].
Qed.

Lemma upper_while_stops fuel row total coeffp successes p :
  Qgt_bool p alpha = false ->
  upper_while pvalue alpha fuel row total coeffp successes p = Done (coeffp, successes).
Proof. intros Hp. destruct fuel; simpl; by rewrite Hp. Qed.

Lemma lower_while_stops fuel row total coeffq q :
  Qgt_bool q alpha = false ->
  lower_while pvalue alpha fuel row total coeffq q = Done coeffq.
Proof. intros Hq. destruct fuel; simpl; by rewrite Hq. Qed.

(** The upper loop leaves at the first candidate above [coeffp] whose
    ['greater'] test is at or below [alpha]. *)
Lemma upper_while_first_significant fuel row total coeffp successes p c s :
  upper_while pvalue alpha fuel row total coeffp successes p = Done (c, s) ->
  Qgt_bool p alpha = true ->
  coeffp < c /\
  Qgt_bool (pvalue Greater (nlargest_sum row c) total) alpha = false /\
  forall c', coeffp < c' < c ->
    Qgt_bool (pvalue Greater (nlargest_sum row c') total) alpha = true.
Proof.
  revert coeffp successes p.
  induction fuel as [|fuel IH]; intros coeffp successes p; simpl.
  - destruct (Qgt_bool p alpha); [done|]. by intros _ ?.
  - destruct (Qgt_bool p alpha); [|by intros _ ?].
    destruct (binomtest pvalue _ total Greater) as [p'| |] eqn:Hb; simpl; [|done..].
    apply binomtest_Done in Hb as [-> _]. intros Hw _.
    destruct (Qgt_bool (pvalue Greater (nlargest_sum row (coeffp + 1)) total) alpha) eqn:Hp'.
    + destruct (IH _ _ _ Hw Hp') as (Hlt & Hc & Hbelow). split; [lia|]. split; [done|].
      intros c' Hc'. destruct (decide (c' = coeffp + 1)) as [->|]; [done|].
      apply Hbelow. lia.
    + rewrite upper_while_stops in Hw by done. injection Hw as <- <-.
      split; [lia|]. split; [done|]. intros c' Hc'. lia.
Qed.

Lemma lower_while_first_significant fuel row total coeffq q c :
  lower_while pvalue alpha fuel row total coeffq q = Done c ->
  Qgt_bool q alpha = true ->
  c < coeffq /\
  Qgt_bool (pvalue Less (nlargest_sum row c) total) alpha = false /\
  forall c', c < c' < coeffq ->
    Qgt_bool (pvalue Less (nlargest_sum row c') total) alpha = true.
Proof.
  revert coeffq q.
  induction fuel as [|fuel IH]; intros coeffq q; simpl.
  - destruct (Qgt_bool q alpha); [done|]. by intros _ ?.
  - destruct (Qgt_bool q alpha); [|by intros _ ?].
    destruct (binomtest pvalue _ total Less) as [q'| |] eqn:Hb; simpl; [|done..].
    apply binomtest_Done in Hb as [-> _]. intros Hw _.
    destruct (Qgt_bool (pvalue Less (nlargest_sum row (coeffq - 1)) total) alpha) eqn:Hq'.
    + destruct (IH _ _ Hw Hq') as (Hlt & Hc & Habove). split; [lia|]. split; [done|].
      intros c' Hc'. destruct (decide (c' = coeffq - 1)) as [->|]; [done|].
      apply Habove. lia.
    + rewrite lower_while_stops in Hw by done. injection Hw as <-.
      split; [lia|]. split; [done|]. intros c' Hc'. lia.
Qed.

Lemma upper_search_outcome (fuel : nat) (row : list Z)
    (total coeff upper successes : Z) :
  upper_search pvalue alpha fuel row total coeff = Done (upper, successes) ->
  let p := fun c => pvalue Greater (nlargest_sum row c) total in
  (Qgt_bool (p coeff) alpha = false /\ upper = coeff) \/
  (coeff <= upper /\
   (forall c, coeff <= c <= upper -> Qgt_bool (p c) alpha = true) /\
   Qgt_bool (p (upper + 1)) alpha = false).
Proof.
  unfold upper_search.
  destruct (binomtest pvalue _ total Greater) as [p0| |] eqn:Hb; simpl; [|done..].
  apply binomtest_Done in Hb as [-> _].
  destruct (Qgt_bool (pvalue Greater (nlargest_sum row coeff) total) alpha) eqn:Hp0.
  - destruct (upper_while _ _ _ _ _ _ _ _) as [[c s]| |] eqn:Hw; simpl; [|done..].
    intros [= <- <-]. right.
    destruct (upper_while_first_significant _ _ _ _ _ _ _ _ Hw Hp0) as (Hlt & Hc & Hbelow).
    split; [lia|]. split.
    + intros c' Hc'. destruct (decide (c' = coeff)) as [->|]; [done|]. apply Hbelow. lia.
    + by replace (c - 1 + 1) with c by lia.
  - intros [= <- <-]. by left.
Qed.

(** X2: what the upper bound is.  If the ['greater'] test at the point
    estimate is at or below [alpha], the upper bound is the point
    estimate.  Otherwise the test is above [alpha] at every candidate
    from the point estimate to the upper bound, and at or below [alpha]
    at the next candidate. *)
Theorem upper_bound_is_last_insignificant (fuel : nat) (row : list Z)
    (total coeff upper successes : Z) :
  upper_search pvalue alpha fuel row total coeff = Done (upper, successes) ->
  let p := fun c => pvalue Greater (nlargest_sum row c) total in
  (Qgt_bool (p coeff) alpha = false /\ upper = coeff) \/
  (coeff <= upper /\
   (forall c, coeff <= c <= upper -> Qgt_bool (p c) alpha = true) /\
   Qgt_bool (p (upper + 1)) alpha = false).
Proof. apply upper_search_outcome. Qed.

Lemma lower_search_outcome (fuel : nat) (row : list Z)
    (total coeff successes lower : Z) :
  lower_search pvalue alpha fuel row total coeff successes = Done lower ->
  let q := fun c => pvalue Less (nlargest_sum row c) total in
  (Qgt_bool (pvalue Less successes total) alpha = false /\ lower = coeff) \/
  (Qgt_bool (pvalue Less successes total) alpha = true /\
   lower <= coeff /\
   (forall c, lower <= c < coeff -> Qgt_bool (q c) alpha = true) /\
   Qgt_bool (q (lower - 1)) alpha = false).
Proof.
  unfold lower_search.
  destruct (binomtest pvalue _ total Less) as [q0| |] eqn:Hb; simpl; [|done..].
  apply binomtest_Done in Hb as [-> _].
  destruct (Qgt_bool (pvalue Less successes total) alpha) eqn:Hq0.
  - destruct (lower_while _ _ _ _ _ _ _) as [c| |] eqn:Hw; simpl; [|done..].
    intros [= <-]. right. split; [done|].
    destruct (lower_while_first_significant _ _ _ _ _ _ Hw Hq0) as (Hlt & Hc & Habove).
    split; [lia|]. split.
    + intros c' Hc'. apply Habove. lia.
    + by replace (c + 1 - 1) with c by lia.
  - intros [= <-]. by left.
Qed.

(** X3: what the lower bound is, given the count [successes] that the
    first ['less'] test receives.  If that test is at or below [alpha],
    the lower bound is the point estimate.  Otherwise the ['less'] test
    is above [alpha] at every candidate from the lower bound to below
    the point estimate, and at or below [alpha] at the candidate before
    the lower bound. *)
Theorem lower_bound_is_first_insignificant (fuel : nat) (row : list Z)
    (total coeff successes lower : Z) :
  lower_search pvalue alpha fuel row total coeff successes = Done lower ->
  let q := fun c => pvalue Less (nlargest_sum row c) total in
  (Qgt_bool (pvalue Less successes total) alpha = false /\ lower = coeff) \/
  (Qgt_bool (pvalue Less successes total) alpha = true /\
   lower <= coeff /\
   (forall c, lower <= c < coeff -> Qgt_bool (q c) alpha = true) /\
   Qgt_bool (q (lower - 1)) alpha = false).
Proof. apply lower_search_outcome. Qed.

(** The search of one date stays among the entities: with a coefficient
    between 1 and the number of entities, so are both bounds. *)
Lemma nc_range_of_row_within fuel row coeff lower upper :
  nc_range_of_row pvalue alpha fuel row coeff = Done (lower, upper) ->
  0 < sum row -> 1 <= coeff <= Z.of_nat (length row) ->
  1 <= lower /\ upper <= Z.of_nat (length row).
Proof.
  unfold nc_range_of_row. intros Hr Hsum Hc. rewrite decide_True in Hr by done.
  destruct (upper_search _ _ _ _ _ _) as [[coeffp s]| |] eqn:Hu; simpl in Hr; [|done..].
  destruct (lower_search _ _ _ _ _ _ _) as [coeffq| |] eqn:Hl; simpl in Hr; [|done..].
  injection Hr as <- <-. split.
  - destruct (lower_search_outcome _ _ _ _ _ _ Hl)
      as [[_ ->]|(_ & Hle & Habove & Hstop)]; [lia|].
    destruct (decide (1 <= coeffq)) as [|Hlow]; [done|]. exfalso.
    specialize (Habove coeffq). rewrite nlargest_sum_none in Habove, Hstop by lia.
    rewrite Habove in Hstop by lia. done.
  - destruct (upper_search_outcome _ _ _ _ _ _ Hu)
      as [[_ ->]|(Hle & Hbelow & Hstop)]; [lia|].
    destruct (decide (coeffp <= Z.of_nat (length row))) as [|Hhigh]; [done|]. exfalso.
    specialize (Hbelow coeffp). rewrite nlargest_sum_all in Hbelow, Hstop by lia.
    rewrite Hbelow in Hstop by lia. done.
Qed.

(** Every pair of the result comes from the search of the row and the
    coefficient found under its date. *)
Lemma find_nc_range_loop_lookup fuel blocks nc dates ranges :
  find_nc_range_loop pvalue alpha fuel blocks nc dates = Done ranges ->
  length ranges = length dates /\
  forall d r, loc (zip dates ranges) d = Some r ->
    exists row coeff,
      loc blocks d = Some row /\ loc nc d = Some coeff /\
      nc_range_of_row pvalue alpha fuel row coeff = Done r.
Proof.
  revert ranges. induction dates as [|d0 dates IH]; intros ranges; simpl.
  - intros [= <-]. split; [done|]. by intros d r.
  - destruct (loc blocks d0) as [row|] eqn:Hrow; simpl; [|done].
    destruct (loc nc d0) as [coeff0|] eqn:Hnc; simpl; [|done].
    destruct (repeated d0 blocks.*1); [done|].
    destruct (nc_range_of_row _ _ _ _ _) as [r0| |] eqn:Hr; simpl; [|done..].
    destruct (find_nc_range_loop _ _ _ _ _ _) as [rs| |] eqn:Hrs; simpl; [|done..].
    intros [= <-]. destruct (IH rs eq_refl) as [Hlen Hrest].
    split; [simpl; lia|]. intros d r. simpl. case_decide as Heq.
    + subst d0. intros [= <-]. by exists row, coeff0.
    + apply Hrest.
Qed.

(** X4: the result of the search has the dates of the block frame, in
    the same order. *)
Theorem range_follows_index (fuel : nat) (blocks_df : BlocksFrame)
    (nc_df : list (date * Z)) (ranges : list (date * (Z * Z))) :
  find_nc_range pvalue alpha fuel blocks_df nc_df = Done ranges ->
  ranges.*1 = bf_index blocks_df.
Proof.
  unfold find_nc_range.
  destruct (find_nc_range_loop _ _ _ _ _ _) as [rs| |] eqn:Hrs; simpl; [|done..].
  intros [= <-]. apply find_nc_range_loop_lookup in Hrs as [Hlen _].
  rewrite fst_zip; [done|lia].
Qed.

(** X5: a date without blocks gets the range (0, 0) from the point
    estimates, and no test is run for it. *)
Theorem range_of_idle_date (fuel : nat) (blocks_df : BlocksFrame)
    (ranges : list (date * (Z * Z))) (d : date) (row : list Z) :
  find_nc_range pvalue alpha fuel blocks_df (compute_nakamoto_coefficients blocks_df)
    = Done ranges ->
  d ∈ bf_index blocks_df ->
  loc (bf_rows blocks_df) d = Some row ->
  sum row = 0 ->
  loc ranges d = Some (0, 0).
Proof.
  unfold find_nc_range.
  destruct (find_nc_range_loop _ _ _ _ _ _) as [rs| |] eqn:Hrs; simpl; [|done..].
  intros [= <-] Hd Hrow Hsum.
  destruct (find_nc_range_loop_bounds _ _ _ _ _ _ _ Hrs d Hd)
    as (lo & hi & coeff & Hloc & _ & _).
  rewrite Hloc. f_equal.
  destruct (find_nc_range_loop_lookup _ _ _ _ _ Hrs) as [_ Hlook].
  destruct (Hlook d _ Hloc) as (row' & coeff' & Hrow' & Hnc & Hr).
  rewrite Hrow in Hrow'. injection Hrow' as <-.
  rewrite loc_compute_nakamoto_coefficients, Hrow in Hnc. injection Hnc as <-.
  unfold nc_range_of_row in Hr. rewrite decide_False in Hr by lia.
  unfold compute_nakamoto_coefficient in Hr. rewrite decide_False in Hr by lia.
  by injection Hr as <- <-.
Qed.

(** X6: with the point estimates, both bounds of every date stay
    between 0 and the number of entities of the row of that date. *)
Theorem range_within_entities (fuel : nat) (blocks_df : BlocksFrame)
    (ranges : list (date * (Z * Z))) (d : date) (row : list Z) (lower upper : Z) :
  find_nc_range pvalue alpha fuel blocks_df (compute_nakamoto_coefficients blocks_df)
    = Done ranges ->
  loc (bf_rows blocks_df) d = Some row ->
  loc ranges d = Some (lower, upper) ->
  0 <= lower /\ upper <= Z.of_nat (length row).
Proof.
  unfold find_nc_range.
  destruct (find_nc_range_loop _ _ _ _ _ _) as [rs| |] eqn:Hrs; simpl; [|done..].
  intros [= <-] Hrow Hloc.
  destruct (find_nc_range_loop_lookup _ _ _ _ _ Hrs) as [_ Hlook].
  destruct (Hlook d _ Hloc) as (row' & coeff' & Hrow' & Hnc & Hr).
  rewrite Hrow in Hrow'. injection Hrow' as <-.
  rewrite loc_compute_nakamoto_coefficients, Hrow in Hnc. injection Hnc as <-.
  pose proof (nc_within_entities row) as Hnc.
  destruct (decide (0 < sum row)) as [Hsum|Hsum].
  - assert (1 <= compute_nakamoto_coefficient row) as Hpos.
    { unfold compute_nakamoto_coefficient. rewrite decide_True by done.
      destruct (sort_values row) as [|b rest] eqn:Hs.
      - pose proof (sum_sort_values row) as E. rewrite Hs in E. cbn in E. lia.
      - pose proof (nc_loop_enters (sum row) b rest 0 (S754_zero false)). lia. }
    destruct (nc_range_of_row_within _ _ _ _ _ Hr Hsum); lia.
  - unfold nc_range_of_row in Hr. rewrite decide_False in Hr by done.
    injection Hr as <- <-. lia.
Qed.

(** X7: when the coefficient frame lacks a date of the block frame, the
    search yields no result: it stops at that date with a [KeyError]
    unless it failed or ran on for ever at an earlier date. *)
Theorem range_search_needs_every_coefficient (fuel : nat) (blocks_df : BlocksFrame)
    (nc_df : list (date * Z)) (d : date) :
  d ∈ bf_index blocks_df ->
  loc nc_df d = None ->
  forall ranges, find_nc_range pvalue alpha fuel blocks_df nc_df <> Done ranges.
Proof.
  intros Hd Hnone ranges. unfold find_nc_range.
  destruct (find_nc_range_loop _ _ _ _ _ _) as [rs| |] eqn:Hrs; simpl; [|done..].
  destruct (find_nc_range_loop_bounds _ _ _ _ _ _ _ Hrs d Hd)
    as (lo & hi & coeff & _ & Hnc & _).
  congruence.
Qed.

End RangeSearchExtras.

(** ** When the whole search returns *)

Lemma loc_elem_of {A} (s : list (date * A)) (d : date) (a : A) :
  loc s d = Some a -> (d, a) ∈ s.
Proof.
  induction s as [|[d' a'] s IH]; simpl; [done|].
  case_decide as Heq; [intros [= ->]; subst; left|right; by apply IH].
Qed.

Lemma loc_is_Some {A} (s : list (date * A)) (d : date) :
  d ∈ s.*1 -> is_Some (loc s d).
Proof.
  induction s as [|[d' a'] s IH]; simpl; [by intros ?%elem_of_nil|].
  intros Hd. case_decide as Heq; [by eexists|].
  apply elem_of_cons in Hd as [->|Hd]; [done|by apply IH].
Qed.

Lemma filter_eq_not_elem (d : date) (l : list date) :
  d ∉ l -> filter (fun d' => d' = d) l = [].
Proof.
  induction l as [|x l IH]; [done|]. intros Hn.
  apply not_elem_of_cons in Hn as [Hne Hn].
  rewrite filter_cons_False by congruence. by apply IH.
Qed.

(** No date is repeated in an index of distinct dates. *)
Lemma repeated_NoDup (d : date) (index : list date) :
  NoDup index -> repeated d index = false.
Proof.
  intros Hnd. apply bool_decide_eq_false.
  induction Hnd as [|x l Hx Hnd IH]; [cbn; lia|].
  destruct (decide (x = d)) as [->|Hne].
  - rewrite filter_cons_True by done. rewrite filter_eq_not_elem by done. simpl. lia.
  - by rewrite filter_cons_False by done.
Qed.

Section RangeSearchReturns.

Variable pvalue : alternative -> Z -> Z -> Q.
Variable alpha : Q.

Lemma find_nc_range_loop_budget fuel fuel' blocks nc dates ranges :
  (fuel <= fuel')%nat ->
  find_nc_range_loop pvalue alpha fuel blocks nc dates = Done ranges ->
  find_nc_range_loop pvalue alpha fuel' blocks nc dates = Done ranges.
Proof.
  intros Hle. revert ranges. induction dates as [|d dates IH]; intros rs; simpl; [done|].
  destruct (loc blocks d) as [row|]; simpl; [|done].
  destruct (loc nc d) as [coeff|]; simpl; [|done].
  destruct (repeated d blocks.*1); [done|].
  destruct (nc_range_of_row pvalue alpha fuel _ _) as [r| |] eqn:Hr; simpl; [|done..].
  destruct (find_nc_range_loop pvalue alpha fuel _ _ _) as [rs'| |]; simpl; [|done..].
  intros [= <-]. rewrite (nc_range_of_row_budget _ _ _ _ _ _ _ Hle Hr). simpl.
  by rewrite (IH rs').
Qed.

Lemma find_nc_range_loop_returns (blocks_df : BlocksFrame) (dates : list date) :
  NoDup (bf_index blocks_df) ->
  nonneg_counts blocks_df ->
  Forall (fun row => 0 < sum row -> extremes_significant pvalue alpha row) (bf_data blocks_df) ->
  dates ⊆ bf_index blocks_df ->
  exists fuel ranges,
    find_nc_range_loop pvalue alpha fuel (bf_rows blocks_df)
      (compute_nakamoto_coefficients blocks_df) dates = Done ranges.
Proof.
  intros Hnd Hnn Hext. induction dates as [|d dates IH]; intros Hsub.
  - by exists 0%nat, [].
  - destruct IH as (fuel1 & rs & Hrs); [intros x Hx; apply Hsub; by right|].
    destruct (loc_is_Some (bf_rows blocks_df) d) as [row Hrow]; [apply Hsub; left|].
    assert (row ∈ bf_data blocks_df) as Hin.
    { apply loc_elem_of in Hrow. unfold bf_data.
      apply list_elem_of_fmap. by exists (d, row). }
    assert (exists fuel0 r, nc_range_of_row pvalue alpha fuel0 row
                              (compute_nakamoto_coefficient row) = Done r)
      as (fuel0 & r & Hr).
    { destruct (decide (0 < sum row)) as [Hsum|Hsum].
      - unfold nonneg_counts in Hnn. rewrite Forall_forall in Hnn, Hext.
        destruct (Hext row Hin Hsum) as [Hall Hnone].
        apply Qgt_bool_false_iff in Hall, Hnone.
        destruct (nc_range_of_row_returns pvalue alpha row
                    (compute_nakamoto_coefficient row) (Hnn row Hin) Hsum Hall Hnone)
          as [r Hr].
        by eexists _, r.
      - exists 0%nat. eexists. unfold nc_range_of_row. by rewrite decide_False. }
    exists (fuel0 `max` fuel1)%nat, (r :: rs). simpl. rewrite Hrow.
    rewrite loc_compute_nakamoto_coefficients, Hrow. simpl.
    assert (repeated d (bf_rows blocks_df).*1 = false) as ->
      by apply (repeated_NoDup _ _ Hnd).
    rewrite (nc_range_of_row_budget pvalue alpha fuel0 _ _ _ r) by (lia || done). simpl.
    by rewrite (find_nc_range_loop_budget fuel1 _ _ _ _ rs) by (lia || done).
Qed.

(** X8: on a count table (increasing dates, non-negative counts whose
    sums fit int64) the search returns, for a large enough loop budget,
    when on every date with blocks both extreme tests are at or below
    [alpha]. *)
Theorem range_search_returns (blocks_df : BlocksFrame) :
  increasing_dates blocks_df ->
  int64_counts blocks_df ->
  Forall (fun row => 0 < sum row -> extremes_significant pvalue alpha row) (bf_data blocks_df) ->
  exists fuel ranges,
    find_nc_range pvalue alpha fuel blocks_df (compute_nakamoto_coefficients blocks_df)
      = Done ranges.
Proof.
  intros Hs [Hnn _] Hext.
  destruct (find_nc_range_loop_returns blocks_df (bf_index blocks_df)
              (increasing_NoDup _ Hs) Hnn Hext)
    as (fuel & rs & Hrs); [done|].
  exists fuel. eexists. unfold find_nc_range. by rewrite Hrs.
Qed.

End RangeSearchReturns.

(** ** Further properties of the pass-rate *)

Section PassRateExtras.

Variable pvalue : alternative -> Z -> Z -> Q.
Variable alpha : Q.

(** X9: the pass-rate does not depend on the order of the dates: two
    tables of non-negative counts with the same rows in any order have
    the same result. *)
Theorem binom_p_date_order (blocks_df blocks_df' : BlocksFrame) :
  nonneg_counts blocks_df ->
  bf_rows blocks_df ≡ₚ bf_rows blocks_df' ->
  binom_p pvalue alpha blocks_df' (compute_nakamoto_coefficients blocks_df') =
  binom_p pvalue alpha blocks_df (compute_nakamoto_coefficients blocks_df).
Proof.
  intros Hnn Hp.
  assert (nonneg_counts blocks_df') as Hnn'.
  { unfold nonneg_counts, bf_data in *. by rewrite <- Hp. }
  rewrite !(binom_p_value pvalue alpha) by done.
  assert (nonzero_dates blocks_df ≡ₚ nonzero_dates blocks_df') as Hnz
    by (unfold nonzero_dates; by rewrite Hp).
  assert (passing_dates pvalue alpha blocks_df ≡ₚ passing_dates pvalue alpha blocks_df')
    as Hps by (unfold passing_dates; by rewrite Hnz).
  cbv zeta. by rewrite (Permutation_length Hnz), (Permutation_length Hps).
Qed.

(** X10: dates without blocks do not count: removing them from a table
    of non-negative counts leaves the result of [binom_p] as it is. *)
Theorem binom_p_without_idle_dates (blocks_df : BlocksFrame) :
  nonneg_counts blocks_df ->
  binom_p pvalue alpha (without_idle_dates blocks_df)
    (compute_nakamoto_coefficients (without_idle_dates blocks_df)) =
  binom_p pvalue alpha blocks_df (compute_nakamoto_coefficients blocks_df).
Proof.
  intros Hnn.
  assert (nonneg_counts (without_idle_dates blocks_df)) as Hnn'.
  { unfold nonneg_counts, bf_data, without_idle_dates, nonzero_dates in *. simpl.
    rewrite Forall_fmap, Forall_forall in *. intros x Hx.
    apply Hnn. by apply list_elem_of_filter in Hx as [_ Hx]. }
  rewrite !(binom_p_value pvalue alpha) by done.
  assert (nonzero_dates (without_idle_dates blocks_df) = nonzero_dates blocks_df) as Hnz.
  { unfold nonzero_dates, without_idle_dates. simpl. unfold nonzero_dates.
    rewrite list_filter_filter. apply list_filter_iff. tauto. }
  unfold passing_dates. by rewrite Hnz.
Qed.


End PassRateExtras.

(** ** Further properties of the aggregator *)

Lemma dict_set_keys {A} (d : list (date * A)) (k : date) (v : A) :
  (dict_set d k v).*1 = if decide (k ∈ d.*1) then d.*1 else d.*1 ++ [k].
Proof.
  induction d as [|[k' v'] d IH]; [done|].
  cbn [dict_set]. destruct (decide (k' = k)) as [->|Hne]; rewrite !fmap_cons; cbn [fst].
  - rewrite decide_True; [done|left].
  - rewrite IH. destruct (decide (k ∈ d.*1)) as [Hin|Hin].
    + rewrite decide_True; [done|by right].
    + rewrite decide_False; [done|]. intros [?|?]%elem_of_cons; congruence.
Qed.

Lemma to_dict_fold_keys {A} (acc rows : list (date * A)) :
  NoDup acc.*1 ->
  NoDup (foldl (fun d kv => dict_set d kv.1 kv.2) acc rows).*1 /\
  forall x, x ∈ (foldl (fun d kv => dict_set d kv.1 kv.2) acc rows).*1 <->
            x ∈ acc.*1 \/ x ∈ rows.*1.
Proof.
  revert acc. induction rows as [|[k v] rows IH]; intros acc Hnd; simpl.
  - split; [done|]. intros x. rewrite elem_of_nil. tauto.
  - destruct (IH (dict_set acc k v)) as [Hnd' Hin'].
    + rewrite dict_set_keys. case_decide as Hk; [done|].
      apply NoDup_app. split; [done|]. split; [|apply NoDup_singleton].
      intros x Hx ->%list_elem_of_singleton. done.
    + split; [done|]. intros x. rewrite Hin', dict_set_keys, elem_of_cons.
      case_decide as Hk.
      * split; [tauto|]. intros [?|[->|?]]; tauto.
      * rewrite elem_of_app, list_elem_of_singleton. tauto.
Qed.

Lemma increasing_of_sorted_distinct (l : list Z) :
  StronglySorted Z.le l -> NoDup l -> StronglySorted Z.lt l.
Proof.
  induction 1 as [|x l _ IH Hx]; intros Hnd; [constructor|].
  apply NoDup_cons in Hnd as [Hnotin Hnd]. constructor; [by apply IH|].
  rewrite Forall_forall in *. intros y Hy. specialize (Hx y Hy).
  assert (x <> y) by (by intros ->). lia.
Qed.

Lemma by_date_sorted_keys {A} (d : list (date * A)) :
  StronglySorted by_date d -> StronglySorted Z.le d.*1.
Proof.
  induction 1 as [|x d _ IH Hx]; simpl; constructor; [done|].
  rewrite Forall_fmap. eapply Forall_impl; [exact Hx|]. by intros y Hy.
Qed.

Lemma dict_set_elem {A} (d : list (date * A)) (k : date) (v : A) (x : date * A) :
  x ∈ dict_set d k v -> x ∈ d \/ x = (k, v).
Proof.
  induction d as [|[k' v'] d IH]; simpl.
  - intros ->%list_elem_of_singleton. by right.
  - case_decide.
    + intros [->|H']%elem_of_cons; [by right|left; by right].
    + intros [->|H']%elem_of_cons; [left; left|].
      destruct (IH H'); [left; by right|by right].
Qed.

Lemma to_dict_fold_elem {A} (acc rows : list (date * A)) (x : date * A) :
  x ∈ foldl (fun d kv => dict_set d kv.1 kv.2) acc rows -> x ∈ acc \/ x ∈ rows.
Proof.
  revert acc. induction rows as [|[k v] rows IH]; intros acc; simpl; [by left|].
  intros Hx. destruct (IH _ Hx) as [Hacc|Hrows]; [|right; by right].
  destruct (dict_set_elem _ _ _ _ Hacc) as [? | ->]; [by left|right; left].
Qed.

(** The table as [granularity] reads it has increasing dates, the dates
    of the table, and rows of the table. *)
Lemma sorted_table_dates (blocks_df : BlocksFrame) :
  increasing_dates (sorted_table blocks_df) /\
  forall d, d ∈ bf_index (sorted_table blocks_df) <-> d ∈ bf_index blocks_df.
Proof.
  unfold increasing_dates, bf_index, sorted_table. cbn [bf_rows].
  unfold sorted_items, to_dict.
  destruct (to_dict_fold_keys (@nil (date * list Z)) (bf_rows blocks_df)) as [Hnd Hin];
    [constructor|].
  split.
  - apply increasing_of_sorted_distinct.
    + apply by_date_sorted_keys, (StronglySorted_merge_sort by_date).
    + by rewrite merge_sort_Permutation.
  - intros d. rewrite merge_sort_Permutation, Hin.
    rewrite elem_of_nil. tauto.
Qed.

Lemma sorted_table_rectangular (blocks_df : BlocksFrame) :
  rectangular blocks_df -> rectangular (sorted_table blocks_df).
Proof.
  unfold rectangular, bf_data, sorted_table. cbn [bf_rows bf_columns].
  rewrite !Forall_fmap, !Forall_forall. intros Hrect x Hx. apply Hrect.
  unfold sorted_items in Hx. rewrite merge_sort_Permutation in Hx.
  destruct (to_dict_fold_elem _ _ _ Hx) as [Hnil|?]; [by apply elem_of_nil in Hnil|done].
Qed.

Lemma granularity_sorted_table (blocks_df : BlocksFrame) (num : Z) :
  granularity blocks_df num = granularity (sorted_table blocks_df) num.
Proof.
  destruct (sorted_table_dates blocks_df) as [Hs _].
  unfold granularity. rewrite (granularity_locals_increasing (sorted_table blocks_df)) by done.
  done.
Qed.

(** X12: whatever the order of the dates of the input, and whether or
    not a date occurs twice, for a window [num >= 1] on a table with
    one count per entity in every row the aggregator returns a frame
    whose dates are strictly increasing, and they are the dates of the
    input. *)
Theorem granularity_sorts_dates (blocks_df : BlocksFrame) (num : Z) :
  rectangular blocks_df -> 1 <= num ->
  exists fr,
    granularity blocks_df num = Done fr /\
    StronglySorted Z.lt (fr_index fr) /\
    forall d, d ∈ fr_index fr <-> d ∈ bf_index blocks_df.
Proof.
  intros Hrect Hnum. destruct (sorted_table_dates blocks_df) as [Hs Hd].
  destruct (granularity_frame_parts (sorted_table blocks_df) num Hs
              (sorted_table_rectangular _ Hrect) Hnum) as (fr & Hfr & Hidx & _ & _).
  exists fr. rewrite granularity_sorted_table. split; [done|].
  rewrite Hidx. split; [exact Hs|exact Hd].
Qed.

Lemma window_row_length (blocks_df : BlocksFrame) (num : Z) (i : nat) :
  rectangular blocks_df ->
  length (window_row blocks_df num i) = length (bf_columns blocks_df).
Proof.
  intros Hrect. unfold window_row. case_decide as Hw.
  - by rewrite length_replicate.
  - rewrite length_fmap. by apply window_sum_length.
Qed.

(** X13: on a table with increasing dates and one count per entity in
    every row, for a window [num >= 1], the aggregated frame has the
    same dates in the same order, the same entity columns, one row per
    date of the input and one cell per entity in every row. *)
Theorem granularity_keeps_shape (blocks_df : BlocksFrame) (num : Z) :
  increasing_dates blocks_df -> rectangular blocks_df -> 1 <= num ->
  exists fr,
    granularity blocks_df num = Done fr /\
    fr_index fr = bf_index blocks_df /\
    fr_columns fr = bf_columns blocks_df /\
    length (fr_data fr) = length (bf_data blocks_df) /\
    Forall (fun cells => length cells = length (bf_columns blocks_df)) (fr_data fr).
Proof.
  intros Hs Hrect Hnum.
  destruct (granularity_frame_parts blocks_df num Hs Hrect Hnum)
    as (fr & Hfr & Hidx & Hcols & Hdata).
  exists fr. split; [done|]. split; [done|]. split; [done|]. rewrite Hdata.
  split; [by rewrite length_fmap, length_seq|].
  rewrite Forall_fmap. apply Forall_forall. intros i _. by apply window_row_length.
Qed.

(** Before position [step] the range is empty as soon as the table has
    at least [num] dates: it would start at [len + i - step], at or after
    its end [i + (num - step)]. *)
Lemma window_empty_near_start (blocks_df : BlocksFrame) (num : Z) (i : nat) :
  1 <= num ->
  num <= Z.of_nat (length (bf_data blocks_df)) ->
  Z.of_nat i < num `div` 2 ->
  window blocks_df num i = [].
Proof.
  intros Hnum Hlen Hi. destruct (half_window_bounds num Hnum) as [Hs' Hw].
  unfold window, rows_in_range, window_start. rewrite rows_from_take_drop.
  rewrite decide_True by lia.
  replace (Z.to_nat _) with 0%nat at 1 by lia. done.
Qed.

(** X14: the window does not wrap around on a table with at least
    [num] dates: before position [num // 2] the range of a date is
    empty, and the output row of that date holds a missing value for
    every entity. *)
Theorem granularity_leading_rows_missing (blocks_df : BlocksFrame) (num : Z) (i : nat) :
  increasing_dates blocks_df -> rectangular blocks_df -> int64_counts blocks_df ->
  1 <= num ->
  num <= Z.of_nat (length (bf_data blocks_df)) ->
  Z.of_nat i < num `div` 2 ->
  exists fr,
    granularity blocks_df num = Done fr /\
    fr_data fr !! i = Some (replicate (length (bf_columns blocks_df)) NaN).
Proof.
  intros Hs Hrect _ Hnum Hlen Hi. destruct (half_window_bounds num Hnum) as [Hs' Hw].
  destruct (granularity_frame_parts blocks_df num Hs Hrect Hnum)
    as (fr & Hfr & _ & _ & Hdata).
  exists fr. split; [done|].
  rewrite Hdata, list_lookup_fmap, lookup_seq_lt by lia. simpl.
  unfold window_row. by rewrite decide_True by (by apply window_empty_near_start).
Qed.

(** X15: on a table with increasing dates and [m] counts in every row,
    the output row of a position [i >= num // 2] has [m] entries, and
    its entry [j] is the sum of the entries [j] of the input rows from
    position [i - num // 2] up to, and without, position
    [i + (num - num // 2)], as far as the table reaches: so it is in the
    rows handed to [pd.DataFrame], and so it is in the frame built from
    them for [m] entity columns, where the sum is an integer when the
    range of every date holds a row and a float otherwise. *)
Theorem granularity_cell_is_window_sum (blocks_df : BlocksFrame) (num : Z) (m i j : nat) :
  increasing_dates blocks_df -> 1 <= num ->
  Forall (fun row => length row = m) (bf_data blocks_df) ->
  (i < length (bf_data blocks_df))%nat ->
  num `div` 2 <= Z.of_nat i ->
  (j < m)%nat ->
  let window :=
    rows_in_range (bf_data blocks_df) (Z.of_nat i - num `div` 2)
      (Z.of_nat i + (num - num `div` 2)) in
  let s := sum ((fun row => default 0 (row !! j)) <$> window) in
  (exists out,
     (granularity_locals blocks_df num).2 !! i = Some out /\
     length out = m /\
     out !! j = Some s) /\
  (length (bf_columns blocks_df) = m -> int64_counts blocks_df ->
   exists fr cells,
     granularity blocks_df num = Done fr /\
     fr_data fr !! i = Some cells /\
     length cells = m /\
     cells !! j = Some (as_cell (some_window_empty blocks_df num) s)).
Proof.
  intros Hs Hnum Hwidth Hi Hstep Hj window0 s.
  destruct (half_window_bounds num Hnum) as [Hstep0 Hw].
  assert (window blocks_df num i = window0) as Hwin.
  { unfold window, window0, window_start. by rewrite decide_False by lia. }
  destruct (lookup_lt_is_Some_2 (bf_data blocks_df) i Hi) as [row Hrow].
  assert (window0 <> []) as Hne.
  { intros E. assert (row ∈ @nil (list Z)) as Hin; [|by apply elem_of_nil in Hin].
    rewrite <- E. apply (rows_from_contains _ _ _ _ i); [done|lia]. }
  assert (Forall (fun row => length row = m) window0) as Hall.
  { rewrite Forall_forall in *. intros r Hr. apply Hwidth.
    by apply rows_from_elem_of in Hr. }
  assert (length (elementwise_sum window0) = m) as Hlen
    by (by apply elementwise_sum_length).
  assert (elementwise_sum window0 !! j = Some s) as Hcell.
  { apply elementwise_sum_lookup; [done|].
    eapply Forall_impl; [exact Hall|]. intros r Hr. simpl in Hr.
    apply lookup_lt_is_Some. lia. }
  split.
  - exists (elementwise_sum window0).
    rewrite granularity_locals_windows by done. cbn [snd].
    rewrite list_lookup_fmap, lookup_seq_lt by done. simpl. by rewrite Hwin.
  - intros Hcols _.
    assert (rectangular blocks_df) as Hrect by (unfold rectangular; by rewrite Hcols).
    destruct (granularity_frame_parts blocks_df num Hs Hrect Hnum)
      as (fr & Hfr & _ & _ & Hdata).
    exists fr, (as_cell (some_window_empty blocks_df num) <$> elementwise_sum window0).
    split; [done|]. split.
    + rewrite Hdata, list_lookup_fmap, lookup_seq_lt by done. simpl.
      unfold window_row. rewrite Hwin. by rewrite decide_False.
    + split; [by rewrite length_fmap|]. by rewrite list_lookup_fmap, Hcell.
Qed.

Lemma sorted_table_nonempty (blocks_df : BlocksFrame) :
  bf_rows blocks_df <> [] -> bf_rows (sorted_table blocks_df) <> [].
Proof.
  intros Hrows E. destruct (sorted_table_dates blocks_df) as [_ Hd].
  destruct (bf_rows blocks_df) as [|[d0 row0] rows] eqn:E0; [done|].
  assert (d0 ∈ bf_index blocks_df) as Hin by (unfold bf_index; rewrite E0; left).
  apply Hd in Hin. unfold bf_index in Hin. rewrite E in Hin.
  by apply elem_of_nil in Hin.
Qed.

Lemma py_slice_nothing {A} (l : list A) (i : nat) :
  py_slice l (Z.of_nat i - 0) (Z.of_nat i + (0 - 0)) = [].
Proof.
  unfold py_slice, slice_bound. rewrite !decide_False by lia.
  by replace (Z.to_nat _) with 0%nat by lia.
Qed.

Lemma max_list_zeros (l : list nat) : Forall (fun n => n = 0%nat) l -> max_list l = 0%nat.
Proof. induction 1 as [|n l -> _ IH]; simpl; [done|]. by rewrite IH. Qed.

(** X16: with the window [num = 0] every range is empty, every row
    handed to [pd.DataFrame] has no entry, and the frame cannot be
    built for a table with a date and an entity: [ValueError]. *)
Theorem granularity_window_zero_raises (blocks_df : BlocksFrame) :
  bf_rows blocks_df <> [] -> bf_columns blocks_df <> [] ->
  granularity blocks_df 0 = Raise ValueError.
Proof.
  intros Hrows Hcols. unfold granularity, granularity_locals.
  change (0 `div` 2) with 0.
  pose proof (sorted_table_nonempty blocks_df Hrows) as Hitems.
  unfold sorted_table in Hitems. cbn [bf_rows] in Hitems.
  set (items := sorted_items (to_dict (bf_rows blocks_df))) in *.
  set (result := (fun i : nat => sum <$> zip_star (py_slice items.*2 _ _)) <$> _).
  assert (result = replicate (length items) []) as ->.
  { unfold result. rewrite length_fmap. apply list_eq. intros i.
    rewrite list_lookup_fmap.
    destruct (decide (i < length items)%nat).
    - rewrite lookup_seq_lt, lookup_replicate_2 by done. simpl.
      by rewrite py_slice_nothing.
    - rewrite lookup_seq_ge by lia. simpl. symmetry. apply lookup_replicate_None. lia. }
  rewrite DataFrame_rows by (destruct items; done).
  rewrite decide_False; [done|]. intros [Hmax _].
  rewrite max_list_zeros in Hmax.
  - destruct (bf_columns blocks_df); [done|]. simpl in Hmax. lia.
  - rewrite Forall_fmap. apply Forall_replicate. done.
Qed.

(** ** The further properties at work on the sample frames *)

Lemma upper_bound_is_last_insignificant_witness :
  upper_search exact_pvalue alpha_default 8 [3; 2; 1] 6 2 = Done (2, 6) /\
  let p := fun c => exact_pvalue Greater (nlargest_sum [3; 2; 1] c) 6 in
  (Qgt_bool (p 2) alpha_default = false /\ 2 = 2) \/
  (2 <= 2 /\
   (forall c, 2 <= c <= 2 -> Qgt_bool (p c) alpha_default = true) /\
   Qgt_bool (p (2 + 1)) alpha_default = false).
Proof.
  assert (H : upper_search exact_pvalue alpha_default 8 [3; 2; 1] 6 2 = Done (2, 6))
    by (by vm_compute).
  split; [exact H|].
  apply (upper_bound_is_last_insignificant exact_pvalue alpha_default 8 [3; 2; 1] 6 2 2 6 H).
Defined.

Lemma lower_bound_is_first_insignificant_witness :
  lower_search exact_pvalue alpha_default 8 [3; 2; 1] 6 2 6 = Done 1 /\
  let q := fun c => exact_pvalue Less (nlargest_sum [3; 2; 1] c) 6 in
  (Qgt_bool (exact_pvalue Less 6 6) alpha_default = false /\ 1 = 2) \/
  (Qgt_bool (exact_pvalue Less 6 6) alpha_default = true /\
   1 <= 2 /\
   (forall c, 1 <= c < 2 -> Qgt_bool (q c) alpha_default = true) /\
   Qgt_bool (q (1 - 1)) alpha_default = false).
Proof.
  assert (H : lower_search exact_pvalue alpha_default 8 [3; 2; 1] 6 2 6 = Done 1)
    by (by vm_compute).
  split; [exact H|].
  apply (lower_bound_is_first_insignificant exact_pvalue alpha_default 8 [3; 2; 1] 6 2 6 1 H).
Defined.

Lemma range_follows_index_witness :
  find_nc_range exact_pvalue alpha_default 8 sample_df
      (compute_nakamoto_coefficients sample_df)
    = Done [(1, (1, 2)); (2, (0, 0)); (3, (1, 2))] /\
  [(1, (1, 2)); (2, (0, 0)); (3, (1, 2))].*1 = bf_index sample_df.
Proof.
  assert (H : find_nc_range exact_pvalue alpha_default 8 sample_df
                (compute_nakamoto_coefficients sample_df)
              = Done [(1, (1, 2)); (2, (0, 0)); (3, (1, 2))]) by (by vm_compute).
  split; [exact H|].
  apply (range_follows_index exact_pvalue alpha_default 8 sample_df _ _ H).
Defined.

Lemma range_of_idle_date_witness :
  find_nc_range exact_pvalue alpha_default 8 sample_df
      (compute_nakamoto_coefficients sample_df)
    = Done [(1, (1, 2)); (2, (0, 0)); (3, (1, 2))] /\
  2 ∈ bf_index sample_df /\
  loc (bf_rows sample_df) 2 = Some [0; 0; 0] /\
  sum [0; 0; 0] = 0 /\
  loc [(1, (1, 2)); (2, (0, 0)); (3, (1, 2))] 2 = Some (0, 0).
Proof.
  assert (H1 : find_nc_range exact_pvalue alpha_default 8 sample_df
                 (compute_nakamoto_coefficients sample_df)
               = Done [(1, (1, 2)); (2, (0, 0)); (3, (1, 2))]) by (by vm_compute).
  assert (H2 : 2 ∈ bf_index sample_df) by (simpl; right; left).
  assert (H3 : loc (bf_rows sample_df) 2 = Some [0; 0; 0]) by reflexivity.
  assert (H4 : sum [0; 0; 0] = 0) by reflexivity.
  split; [exact H1|]. split; [exact H2|]. split; [exact H3|]. split; [exact H4|].
  apply (range_of_idle_date exact_pvalue alpha_default 8 sample_df _ 2 [0; 0; 0]
           H1 H2 H3 H4).
Defined.

Lemma range_within_entities_witness :
  find_nc_range exact_pvalue alpha_default 8 sample_df
      (compute_nakamoto_coefficients sample_df)
    = Done [(1, (1, 2)); (2, (0, 0)); (3, (1, 2))] /\
  loc (bf_rows sample_df) 1 = Some [3; 2; 1] /\
  loc [(1, (1, 2)); (2, (0, 0)); (3, (1, 2))] 1 = Some (1, 2) /\
  0 <= 1 /\ 2 <= Z.of_nat (length [3; 2; 1]).
Proof.
  assert (H1 : find_nc_range exact_pvalue alpha_default 8 sample_df
                 (compute_nakamoto_coefficients sample_df)
               = Done [(1, (1, 2)); (2, (0, 0)); (3, (1, 2))]) by (by vm_compute).
  assert (H2 : loc (bf_rows sample_df) 1 = Some [3; 2; 1]) by reflexivity.
  assert (H3 : loc [(1, (1, 2)); (2, (0, 0)); (3, (1, 2))] 1 = Some (1, 2))
    by reflexivity.
  split; [exact H1|]. split; [exact H2|]. split; [exact H3|].
  apply (range_within_entities exact_pvalue alpha_default 8 sample_df _ 1 [3; 2; 1] 1 2
           H1 H2 H3).
Defined.

Lemma range_search_needs_every_coefficient_witness :
  1 ∈ bf_index sample_df /\
  loc (@nil (date * Z)) 1 = None /\
  forall ranges,
    find_nc_range exact_pvalue alpha_default 8 sample_df [] <> Done ranges.
Proof.
  assert (H1 : 1 ∈ bf_index sample_df) by (simpl; left).
  assert (H2 : loc (@nil (date * Z)) 1 = None) by reflexivity.
  split; [exact H1|]. split; [exact H2|].
  apply (range_search_needs_every_coefficient exact_pvalue alpha_default 8 sample_df
           [] 1 H1 H2).
Defined.

Lemma range_search_returns_witness :
  increasing_dates sample_df /\
  int64_counts sample_df /\
  Forall (fun row => 0 < sum row -> extremes_significant exact_pvalue alpha_default row)
    (bf_data sample_df) /\
  exists fuel ranges,
    find_nc_range exact_pvalue alpha_default fuel sample_df
      (compute_nakamoto_coefficients sample_df) = Done ranges.
Proof.
  assert (H0 : increasing_dates sample_df)
    by (unfold increasing_dates; simpl; repeat constructor).
  assert (H1 : int64_counts sample_df)
    by (split; [repeat constructor; lia | by vm_compute]).
  assert (H2 : Forall (fun row => 0 < sum row ->
                         extremes_significant exact_pvalue alpha_default row)
                 (bf_data sample_df)).
  { simpl. repeat (apply Forall_cons; split); [..|constructor]; intros H;
      first [by vm_compute | by vm_compute in H]. }
  split; [exact H0|]. split; [exact H1|]. split; [exact H2|].
  apply (range_search_returns exact_pvalue alpha_default sample_df H0 H1 H2).
Defined.

Lemma binom_p_date_order_witness :
  nonneg_counts sample_df /\
  bf_rows sample_df ≡ₚ [(2, [0; 0; 0]); (1, [3; 2; 1]); (3, [9; 9; 1])] /\
  binom_p exact_pvalue alpha_default
    {| bf_columns := bf_columns sample_df;
       bf_rows := [(2, [0; 0; 0]); (1, [3; 2; 1]); (3, [9; 9; 1])] |}
    (compute_nakamoto_coefficients
       {| bf_columns := bf_columns sample_df;
          bf_rows := [(2, [0; 0; 0]); (1, [3; 2; 1]); (3, [9; 9; 1])] |}) =
  binom_p exact_pvalue alpha_default sample_df (compute_nakamoto_coefficients sample_df).
Proof.
  assert (H1 : nonneg_counts sample_df) by (repeat constructor; lia).
  assert (H2 : bf_rows sample_df ≡ₚ [(2, [0; 0; 0]); (1, [3; 2; 1]); (3, [9; 9; 1])])
    by (simpl; apply perm_swap).
  split; [exact H1|]. split; [exact H2|].
  apply (binom_p_date_order exact_pvalue alpha_default sample_df
           {| bf_columns := bf_columns sample_df;
              bf_rows := [(2, [0; 0; 0]); (1, [3; 2; 1]); (3, [9; 9; 1])] |} H1 H2).
Defined.

Lemma binom_p_without_idle_dates_witness :
  nonneg_counts sample_df /\
  binom_p exact_pvalue alpha_default (without_idle_dates sample_df)
    (compute_nakamoto_coefficients (without_idle_dates sample_df)) =
  binom_p exact_pvalue alpha_default sample_df (compute_nakamoto_coefficients sample_df).
Proof.
  assert (H : nonneg_counts sample_df) by (repeat constructor; lia).
  split; [exact H|].
  apply (binom_p_without_idle_dates exact_pvalue alpha_default sample_df H).
Defined.


Lemma granularity_sorts_dates_witness :
  rectangular sample_df /\ 1 <= 3 /\
  exists fr,
    granularity sample_df 3 = Done fr /\
    StronglySorted Z.lt (fr_index fr) /\
    forall d, d ∈ fr_index fr <-> d ∈ bf_index sample_df.
Proof.
  assert (H1 : rectangular sample_df) by (repeat constructor).
  assert (H2 : 1 <= 3) by lia.
  split; [exact H1|]. split; [exact H2|].
  apply (granularity_sorts_dates sample_df 3 H1 H2).
Defined.

Lemma granularity_keeps_shape_witness :
  increasing_dates sample_df /\ rectangular sample_df /\ 1 <= 3 /\
  exists fr,
    granularity sample_df 3 = Done fr /\
    fr_index fr = bf_index sample_df /\
    fr_columns fr = bf_columns sample_df /\
    length (fr_data fr) = length (bf_data sample_df) /\
    Forall (fun cells => length cells = length (bf_columns sample_df)) (fr_data fr).
Proof.
  assert (H1 : increasing_dates sample_df)
    by (unfold increasing_dates; simpl; repeat constructor).
  assert (H2 : rectangular sample_df) by (repeat constructor).
  assert (H3 : 1 <= 3) by lia.
  split; [exact H1|]. split; [exact H2|]. split; [exact H3|].
  apply (granularity_keeps_shape sample_df 3 H1 H2 H3).
Defined.

Lemma granularity_leading_rows_missing_witness :
  increasing_dates sample_df /\ rectangular sample_df /\ int64_counts sample_df /\
  1 <= 3 /\
  3 <= Z.of_nat (length (bf_data sample_df)) /\
  Z.of_nat 0 < 3 `div` 2 /\
  exists fr,
    granularity sample_df 3 = Done fr /\
    fr_data fr !! 0%nat = Some (replicate (length (bf_columns sample_df)) NaN).
Proof.
  assert (H1 : increasing_dates sample_df)
    by (unfold increasing_dates; simpl; repeat constructor).
  assert (H2 : rectangular sample_df) by (repeat constructor).
  assert (H3 : int64_counts sample_df)
    by (split; [repeat constructor; lia | by vm_compute]).
  assert (H4 : 1 <= 3) by lia.
  assert (H5 : 3 <= Z.of_nat (length (bf_data sample_df))) by (simpl; lia).
  assert (H6 : Z.of_nat 0 < 3 `div` 2) by (by vm_compute).
  split; [exact H1|]. split; [exact H2|]. split; [exact H3|]. split; [exact H4|].
  split; [exact H5|]. split; [exact H6|].
  apply (granularity_leading_rows_missing sample_df 3 0 H1 H2 H3 H4 H5 H6).
Defined.

Lemma granularity_cell_is_window_sum_witness :
  increasing_dates sample_df /\ 1 <= 3 /\
  Forall (fun row => length row = 3%nat) (bf_data sample_df) /\
  (1 < length (bf_data sample_df))%nat /\
  3 `div` 2 <= Z.of_nat 1 /\
  (0 < 3)%nat /\
  length (bf_columns sample_df) = 3%nat /\
  int64_counts sample_df /\
  let window :=
    rows_in_range (bf_data sample_df) (Z.of_nat 1 - 3 `div` 2)
      (Z.of_nat 1 + (3 - 3 `div` 2)) in
  let s := sum ((fun row => default 0 (row !! 0%nat)) <$> window) in
  (exists out,
     (granularity_locals sample_df 3).2 !! 1%nat = Some out /\
     length out = 3%nat /\
     out !! 0%nat = Some s) /\
  (exists fr cells,
     granularity sample_df 3 = Done fr /\
     fr_data fr !! 1%nat = Some cells /\
     length cells = 3%nat /\
     cells !! 0%nat = Some (as_cell (some_window_empty sample_df 3) s)).
Proof.
  assert (H1 : increasing_dates sample_df)
    by (unfold increasing_dates; simpl; repeat constructor).
  assert (H2 : 1 <= 3) by lia.
  assert (H3 : Forall (fun row => length row = 3%nat) (bf_data sample_df))
    by (repeat constructor).
  assert (H4 : (1 < length (bf_data sample_df))%nat) by (simpl; lia).
  assert (H5 : 3 `div` 2 <= Z.of_nat 1) by (by vm_compute).
  assert (H6 : (0 < 3)%nat) by lia.
  assert (H7 : length (bf_columns sample_df) = 3%nat) by reflexivity.
  assert (H8 : int64_counts sample_df)
    by (split; [repeat constructor; lia | by vm_compute]).
  split; [exact H1|]. split; [exact H2|]. split; [exact H3|]. split; [exact H4|].
  split; [exact H5|]. split; [exact H6|]. split; [exact H7|]. split; [exact H8|].
  destruct (granularity_cell_is_window_sum sample_df 3 3 1 0 H1 H2 H3 H4 H5 H6) as [HA HB].
  split; [exact HA | exact (HB H7 H8)].
Defined.

Lemma granularity_window_zero_raises_witness :
  bf_rows sample_df <> [] /\ bf_columns sample_df <> [] /\
  granularity sample_df 0 = Raise ValueError.
Proof.
  assert (H1 : bf_rows sample_df <> []) by done.
  assert (H2 : bf_columns sample_df <> []) by done.
  split; [exact H1|]. split; [exact H2|].
  apply (granularity_window_zero_raises sample_df H1 H2).
Defined.
